(** * The Spin operator of CorrelationVector-Go (spin.go).

    A shallow embedding of [src/correlationvector/spin.go] and the
    properties of its Spin value generator.

    Conventions.
    - Go's [int], [uint], [int64] and [uint64] are modelled as [Z] with the
      wrap-around written out; [int] and [uint] are 64 bits wide, as on every
      64-bit Go target.
    - Go strings are Rocq [string]s, bytes are [Byte.byte].
    - The named integer types [SpinCounterInterval], [SpinCounterPeriodicity]
      and [SpinEntropy] are plain [int]s in Go: any [int] inhabits them, so
      they are [Z] here and the named constants are definitions.
    - The clock, the random source and the package-level validation flag are
      fields of an explicit [World]; the function runs in a small
      state-and-panic monad that also records the ambient reads. *)

From Stdlib Require Import ZArith List Strings.String Strings.Ascii Strings.Byte Bool Lia.
Import ListNotations.

Local Open Scope string_scope.
Local Open Scope Z_scope.

(* ===================================================================== *)
(** ** Go machine integers *)
(* ===================================================================== *)

Module GoInt.

(** Conversion to [uint64] (and to the 64-bit [uint]): reduction modulo
    [2^64]. *)
Definition uint64 (x : Z) : Z := x mod 2 ^ 64.

(** Conversion of a [uint64] to the 64-bit signed [int]: the bit pattern is
    reinterpreted in two's complement. *)
Definition int (x : Z) : Z :=
  let u := uint64 x in if u <? 2 ^ 63 then u else u - 2 ^ 64.

(** [x << n] on a [uint64] with an unsigned count. Go defines the shift for
    every count: bits shifted out are lost, so a count of 64 or more
    gives 0. *)
Definition shl64 (x n : Z) : Z := uint64 (Z.shiftl x n).

(** [x >> n] on a [uint64]. *)
Definition shr64 (x n : Z) : Z := Z.shiftr x n.

(** [x >> n] on an [int64]: the arithmetic shift, which rounds down. *)
Definition sar64 (x n : Z) : Z := Z.shiftr x n.

(** [x / y] on signed integers truncates towards zero. *)
Definition div (x y : Z) : Z := Z.quot x y.

Definition is_uint64 (x : Z) : Prop := 0 <= x < 2 ^ 64.
Definition is_int64 (x : Z) : Prop := - 2 ^ 63 <= x < 2 ^ 63.

Definition byteZ (b : byte) : Z := Z.of_N (Byte.to_N b).

End GoInt.

(* ===================================================================== *)
(** ** strconv.Itoa *)
(* ===================================================================== *)

(** [strconv.Itoa] belongs to Go's standard library. [Itoa i] is
    [FormatInt(int64(i), 10)]: the decimal digits of the magnitude, most
    significant first, behind a ['-'] when [i] is negative. The digit loop
    emits [u mod 10] and continues with [u / 10] while [u >= 10]; twenty
    rounds cover every 64-bit magnitude. *)
Module Strconv.

Definition digitChar (d : Z) : ascii :=
  ascii_of_nat (48 + Z.to_nat d).

Fixpoint formatBits (rounds : nat) (u : Z) (acc : string) : string :=
  match rounds with
  | O => acc
  | S rounds' =>
      let acc' := String (digitChar (u mod 10)) acc in
      if u <? 10 then acc' else formatBits rounds' (u / 10) acc'
  end.

Definition formatUint (u : Z) : string := formatBits 20 u "".

Definition Itoa (i : Z) : string :=
  if i <? 0 then String "-" (formatUint (- i)) else formatUint i.

(** Reading a numeral back: the value of a string of decimal digits. *)
Definition digitValue (c : ascii) : Z := Z.of_nat (nat_of_ascii c) - 48.

Definition isDigit (c : ascii) : bool :=
  (48 <=? nat_of_ascii c)%nat && (nat_of_ascii c <=? 57)%nat.

Fixpoint numeralValue (acc : Z) (s : string) : Z :=
  match s with
  | EmptyString => acc
  | String c s' => numeralValue (10 * acc + digitValue c) s'
  end.

Fixpoint allDigits (s : string) : bool :=
  match s with
  | EmptyString => true
  | String c s' => isDigit c && allDigits s'
  end.

(** A canonical non-negative decimal numeral: one digit at least, digits
    only, and no leading zero except in the numeral ["0"] itself. *)
Definition canonicalDecimal (s : string) : bool :=
  match s with
  | EmptyString => false
  | String c s' =>
      allDigits s &&
      (negb (Ascii.eqb c "0") || match s' with EmptyString => true | _ => false end)
  end.

Fixpoint contains (c : ascii) (s : string) : bool :=
  match s with
  | EmptyString => false
  | String d s' => Ascii.eqb c d || contains c s'
  end.

End Strconv.

(* ===================================================================== *)
(** ** Spin parameters (spin.go, lines 13-70 and 121-146) *)
(* ===================================================================== *)

Definition CoarseInterval : Z := 0.
Definition FineInterval : Z := 1.

Definition NoPeriodicity : Z := 0.
Definition ShortPeriodicity : Z := 1.
Definition MediumPeriodicity : Z := 2.
Definition LongPeriodicity : Z := 3.

Definition NoEntropy : Z := 0.
Definition OneEntropy : Z := 1.
Definition TwoEntropy : Z := 2.
Definition ThreeEntropy : Z := 3.
Definition FourEntropy : Z := 4.

Record SpinParameters : Type := mkSpinParameters {
  Interval : Z;
  Periodicity : Z;
  Entropy : Z
}.

Definition defaultParameters : SpinParameters :=
  mkSpinParameters CoarseInterval ShortPeriodicity TwoEntropy.

Definition tickBitsToDrop (sp : SpinParameters) : Z :=
  if Interval sp =? CoarseInterval then 24
  else if Interval sp =? FineInterval then 16
  else 24.

(** The [counterBits] local of [totalBits]. *)
Definition counterBits (sp : SpinParameters) : Z :=
  if Periodicity sp =? ShortPeriodicity then 16
  else if Periodicity sp =? MediumPeriodicity then 24
  else if Periodicity sp =? LongPeriodicity then 32
  else 0.

(** [counterBits + uint(sp.Entropy)*8], computed in [uint]. *)
Definition totalBits (sp : SpinParameters) : Z :=
  GoInt.uint64 (counterBits sp + GoInt.uint64 (Entropy sp) * 8).

(** The parameters the specification calls valid. *)
Definition validEntropy (sp : SpinParameters) : Prop := 0 <= Entropy sp <= 4.

(* ===================================================================== *)
(** ** The Spin value (spin.go, lines 98-116) *)
(* ===================================================================== *)

(** Lines 98-101. The loop runs over [i < int(parameters.Entropy)] and reads
    [entropy[i]]; the slice was made with exactly that length, so the loop
    visits the slice once, front to back. *)
Definition packValue (sp : SpinParameters) (ticks : Z) (entropy : list byte) : Z :=
  fold_left (fun value b => Z.lor (GoInt.shl64 value 8) (GoInt.byteZ b))
            entropy
            (GoInt.uint64 (GoInt.sar64 ticks (tickBitsToDrop sp))).

(** Lines 106-110 are three assignments to [mask]. They are kept as a
    straight-line program, so that which operations are carried out can be
    stated, and run by [runMaskOp]. *)
Inductive MaskOp : Type :=
| OpShiftOne (count : Z)   (* mask := uint64(1) << count *)
| OpZero                   (* mask = 0 *)
| OpDecrement.             (* mask -= 1 *)

Definition maskOps (sp : SpinParameters) : list MaskOp :=
  OpShiftOne (totalBits sp)
    :: ((if totalBits sp =? 64 then [OpZero] else [])
        ++ [OpDecrement])%list.

(** One assignment; [shl] is the meaning given to [<<] on [uint64]. *)
Definition runMaskOp (shl : Z -> Z -> Z) (mask : Z) (op : MaskOp) : Z :=
  match op with
  | OpShiftOne count => shl 1 count
  | OpZero => 0
  | OpDecrement => GoInt.uint64 (mask - 1)
  end.

Definition runMaskOps (shl : Z -> Z -> Z) (ops : list MaskOp) : Z :=
  fold_left (runMaskOp shl) ops 0.

Definition spinMask (sp : SpinParameters) : Z :=
  runMaskOps GoInt.shl64 (maskOps sp).

(** Line 111. *)
Definition maskedValue (sp : SpinParameters) (ticks : Z) (entropy : list byte) : Z :=
  Z.land (packValue sp ticks entropy) (spinMask sp).

(** Lines 113-116. *)
Definition formatSpin (sp : SpinParameters) (value : Z) : string :=
  let s := Strconv.Itoa (GoInt.int value) in
  if 32 <? totalBits sp
  then Strconv.Itoa (GoInt.int (GoInt.shr64 value 32)) ++ "." ++ s
  else s.

Definition spinSuffix (sp : SpinParameters) (ticks : Z) (entropy : list byte) : string :=
  formatSpin sp (maskedValue sp ticks entropy).

(* ===================================================================== *)
(** ** The ambient world and the monad of the function *)
(* ===================================================================== *)

(** What [SpinWithParameters] reads besides its arguments. *)
Inductive Event : Type :=
| EvRandRead (n : nat)     (* rand.Read on a slice of n bytes *)
| EvTimeNow.               (* time.Now() *)

Record World : Type := mkWorld {
  (** the package variable [ValidateCorrelationVectorDuringCreation] *)
  ValidateCorrelationVectorDuringCreation : bool;
  (** what [time.Now().UnixNano()] returns, an [int64] *)
  unixNano : Z;
  (** the bytes the global [math/rand] source will deliver, and how many of
      them have been drawn *)
  randSource : nat -> byte;
  randDrawn : nat;
  (** the ambient reads so far, oldest first *)
  events : list Event
}.

Inductive Outcome (A : Type) : Type :=
| Returned (a : A) (w : World)
| Panicked (reason : string).
Arguments Returned {A} a w.
Arguments Panicked {A} reason.

Definition M (A : Type) : Type := World -> Outcome A.

Definition ret {A} (a : A) : M A := fun w => Returned a w.

Definition bind {A B} (m : M A) (k : A -> M B) : M B :=
  fun w => match m w with
           | Returned a w' => k a w'
           | Panicked r => Panicked r
           end.

Definition panic {A} (reason : string) : M A := fun _ => Panicked reason.

Notation "x <- m ;; k" := (bind m (fun x => k))
  (at level 61, m at next level, right associativity).

Definition record (e : Event) (w : World) : World :=
  mkWorld (ValidateCorrelationVectorDuringCreation w) (unixNano w)
          (randSource w) (randDrawn w) (events w ++ [e])%list.

Definition readValidateFlag : M bool :=
  fun w => Returned (ValidateCorrelationVectorDuringCreation w) w.

(** Dereferencing [parameters]: a nil pointer panics. *)
Definition deref {A} (p : option A) : M A :=
  match p with
  | Some a => ret a
  | None => panic "invalid memory address or nil pointer dereference"
  end.

(** The largest allocation the Go runtime accepts, its [maxAlloc]: [1 << 48]
    bytes on 64-bit targets with a 48-bit address space such as
    linux/amd64. *)
Definition maxAlloc : Z := 2 ^ 48.

(** [make([]byte, n)]: the runtime's [makeslice] panics when the length is
    negative or the size exceeds [maxAlloc], and hands out a zeroed slice
    otherwise. Memory up to that limit is taken to be there. *)
Definition makeBytes (n : Z) : M (list byte) :=
  if (n <? 0) || (maxAlloc <? n) then panic "makeslice: len out of range"
  else ret (repeat x00 (Z.to_nat n)).

(** [rand.Read(buf)]: fills the whole slice from the random source. *)
Definition randRead (buf : list byte) : M (list byte) :=
  fun w =>
    let n := List.length buf in
    Returned (map (fun i => randSource w (randDrawn w + i)%nat) (seq 0 n))
             (record (EvRandRead n)
                (mkWorld (ValidateCorrelationVectorDuringCreation w) (unixNano w)
                         (randSource w) (randDrawn w + n)%nat (events w))).

(** [time.Now().UnixNano()]. *)
Definition timeNowUnixNano : M Z :=
  fun w => Returned (unixNano w) (record EvTimeNow w).

(* ===================================================================== *)
(** ** SpinWithParameters and Spin (spin.go, lines 72-119) *)
(* ===================================================================== *)

Section Spin.

(** The collaborators that live outside spin.go. *)
Variable Version : Type.
Variable Error : Type.
Variable inferVersion : string -> Version + Error.
Variable validate : string -> Version -> option Error.

(** Modelled from the spec: the [CorrelationVector] type and its
    constructor [newCorrelationVector(string, counter, version)] are not in
    spin.go. The object keeps the three values it is built from; its
    string is the one handed to the constructor. *)
Record CorrelationVector : Type := newCorrelationVector {
  cvString : string;
  cvCounter : Z;
  cvVersion : Version
}.

(** The Go result pair, a CorrelationVector pointer and an error; [None]
    is nil. *)
Definition Result : Type := (option CorrelationVector * option Error)%type.

Definition SpinWithParameters (correlationVector : string)
           (parameters : option SpinParameters) : M Result :=
  match inferVersion correlationVector with
  | inr err => ret (None, Some err)
  | inl version =>
      flag <- readValidateFlag ;;
      match (if flag then validate correlationVector version else None) with
      | Some err => ret (None, Some err)
      | None =>
          sp <- deref parameters ;;
          entropy <- makeBytes (Entropy sp) ;;
          entropy <- randRead entropy ;;
          now <- timeNowUnixNano ;;
          let ticks := GoInt.div now 100 in
          let s := spinSuffix sp ticks entropy in
          ret (Some (newCorrelationVector (correlationVector ++ "." ++ s) 0 version),
               None)
      end
  end.

Definition Spin (correlationVector : string) : M Result :=
  SpinWithParameters correlationVector (Some defaultParameters).

End Spin.

Arguments newCorrelationVector {Version} cvString cvCounter cvVersion.
Arguments cvString {Version} c.
Arguments cvCounter {Version} c.
Arguments cvVersion {Version} c.
Arguments SpinWithParameters {Version Error} inferVersion validate
  correlationVector parameters _.
Arguments Spin {Version Error} inferVersion validate correlationVector _.

(* ===================================================================== *)
(** ** Dot-separated fields of a string *)
(* ===================================================================== *)

(** The fields of a string: the pieces between its ['.'] characters. *)
Fixpoint fields (s : string) : list string :=
  match s with
  | EmptyString => [EmptyString]
  | String c s' =>
      if Ascii.eqb c "."
      then EmptyString :: fields s'
      else match fields s' with
           | f :: fs => String c f :: fs
           | [] => [String c EmptyString]
           end
  end.


(* ===================================================================== *)
(** ** Reading a run *)
(* ===================================================================== *)

(** The tick count line 96 computes in a world. *)
Definition ticksOf (w : World) : Z := GoInt.div (unixNano w) 100.

(** The next [n] bytes of the random source: what [rand.Read] puts into a
    slice of [n] bytes. *)
Definition entropyOf (w : World) (n : nat) : list byte :=
  map (fun i => randSource w (randDrawn w + i)%nat) (seq 0 n).

(** The world after [rand.Read] on [n] bytes followed by [time.Now()]. *)
Definition afterSpin (w : World) (n : nat) : World :=
  record EvTimeNow
    (record (EvRandRead n)
       (mkWorld (ValidateCorrelationVectorDuringCreation w) (unixNano w)
                (randSource w) (randDrawn w + n)%nat (events w))).

(** The error the validation step (lines 86-90) raises in a world, if any. *)
Definition validationError {Version Error : Type}
           (validate : string -> Version -> option Error)
           (w : World) (base : string) (version : Version) : option Error :=
  if ValidateCorrelationVectorDuringCreation w then validate base version
  else None.

(** The vector line 118 builds in a world. *)
Definition spun {Version : Type} (w : World) (base : string)
           (sp : SpinParameters) (version : Version) : CorrelationVector Version :=
  newCorrelationVector
    (base ++ "." ++
     spinSuffix sp (ticksOf w) (entropyOf w (Z.to_nat (Entropy sp))))
    0 version.

(** What a call returned, if it returned. *)
Definition resultOf {A} (o : Outcome A) : option A :=
  match o with
  | Returned a _ => Some a
  | Panicked _ => None
  end.

(* ===================================================================== *)
(** ** Test doubles for the collaborators *)
(* ===================================================================== *)

(** Stand-ins for [inferVersion] and [validate], used only to run the
    function on concrete inputs. The theorems below hold for every
    collaborator. *)
Module Doubles.

Inductive Version : Type := V1 | V2.

Definition Error : Type := string.

(** Infers a version for every string that has a ['.'] in it. *)
Definition inferVersion (s : string) : Version + Error :=
  if Strconv.contains "." s then inl V1
  else inr "cannot infer the version".

(** Rejects the strings with a ['!'] in them. *)
Definition validate (s : string) (v : Version) : option Error :=
  if Strconv.contains "!" s then Some "invalid character" else None.

(** A world at a given clock reading whose random source delivers [bs]
    and then zeros. *)
Definition world (flag : bool) (nano : Z) (bs : list byte) : World :=
  mkWorld flag nano (fun i => nth i bs x00) 0 [].

Definition spin (base : string) (parameters : option SpinParameters)
  : M (Result Version Error) :=
  SpinWithParameters inferVersion validate base parameters.

End Doubles.


(* ===================================================================== *)
(** ** Reading the Spin value *)
(* ===================================================================== *)

(** The number a sequence of bytes spells, first byte most significant. *)
Fixpoint bytesBE (l : list byte) : Z :=
  match l with
  | [] => 0
  | b :: l' => GoInt.byteZ b * 256 ^ Z.of_nat (List.length l') + bytesBE l'
  end.

(** The counter a tick count leaves once the low bits are dropped and the
    configured number of bits is kept. *)
Definition counterOf (sp : SpinParameters) (ticks : Z) : Z :=
  GoInt.sar64 ticks (tickBitsToDrop sp) mod 2 ^ counterBits sp.

(* ===================================================================== *)
(** ** Some runs of the definitions *)
(* ===================================================================== *)

Example Itoa_328706 : Strconv.Itoa 328706 = "328706".
Proof. reflexivity. Qed.

Example Itoa_zero : Strconv.Itoa 0 = "0".
Proof. reflexivity. Qed.

Example Itoa_min_int64 : Strconv.Itoa (- 2 ^ 63) = "-9223372036854775808".
Proof. reflexivity. Qed.

Example Itoa_max_uint64_as_int : Strconv.Itoa (GoInt.int (2 ^ 64 - 1)) = "-1".
Proof. reflexivity. Qed.

Example fields_two : fields "182.785642422277" = ["182"; "785642422277"].
Proof. reflexivity. Qed.

Example fields_one : fields "327938" = ["327938"].
Proof. reflexivity. Qed.

(* ===================================================================== *)
(** ** Facts about machine integers *)
(* ===================================================================== *)

Module GoIntFacts.
Import GoInt.

Lemma uint64_range (x : Z) : 0 <= uint64 x < 2 ^ 64.
Proof. unfold uint64. apply Z.mod_pos_bound. lia. Qed.

Lemma uint64_small (x : Z) : 0 <= x < 2 ^ 64 -> uint64 x = x.
Proof. intros H. unfold uint64. apply Z.mod_small. exact H. Qed.

Lemma int_small (x : Z) : 0 <= x < 2 ^ 63 -> int x = x.
Proof.
  intros H. unfold int. rewrite uint64_small by lia.
  destruct (Z.ltb_spec x (2 ^ 63)); lia.
Qed.

Lemma int_large (x : Z) : 2 ^ 63 <= x < 2 ^ 64 -> int x = x - 2 ^ 64.
Proof.
  intros H. unfold int. rewrite uint64_small by lia.
  destruct (Z.ltb_spec x (2 ^ 63)); lia.
Qed.

Lemma byteZ_range (b : byte) : 0 <= byteZ b < 2 ^ 8.
Proof.
  unfold byteZ. pose proof (Byte.to_N_bounded b) as H.
  change (2 ^ 8) with 256. lia.
Qed.

(** Bitwise or does not leave a power-of-two range. *)
Lemma lor_range (a b n : Z) :
  0 <= n -> 0 <= a < 2 ^ n -> 0 <= b < 2 ^ n -> 0 <= Z.lor a b < 2 ^ n.
Proof.
  intros Hn Ha Hb.
  assert (Hnn : 0 <= Z.lor a b) by (apply Z.lor_nonneg; lia).
  split; [exact Hnn|].
  destruct (Z.eq_dec (Z.lor a b) 0) as [E|E].
  - rewrite E. apply Z.pow_pos_nonneg; lia.
  - assert (Hpos : 0 < n).
    { destruct (Z.eq_dec n 0) as [->|]; [|lia].
      change (2 ^ 0) with 1 in *.
      assert (a = 0) by lia. assert (b = 0) by lia. subst. now elim E. }
    apply Z.log2_lt_pow2; [lia|].
    rewrite Z.log2_lor by lia.
    apply Z.max_lub_lt.
    + destruct (Z.eq_dec a 0) as [->|]; [simpl; lia|].
      apply Z.log2_lt_pow2; lia.
    + destruct (Z.eq_dec b 0) as [->|]; [simpl; lia|].
      apply Z.log2_lt_pow2; lia.
Qed.

Lemma shl64_range (x n : Z) : 0 <= shl64 x n < 2 ^ 64.
Proof. apply uint64_range. Qed.

Lemma shl64_one_small (n : Z) : 0 <= n < 64 -> shl64 1 n = 2 ^ n.
Proof.
  intros H. unfold shl64. rewrite Z.shiftl_1_l.
  apply uint64_small. split; [apply Z.pow_nonneg; lia|].
  apply Z.pow_lt_mono_r; lia.
Qed.

Lemma shl64_one_large (n : Z) : 64 <= n -> shl64 1 n = 0.
Proof.
  intros H. unfold shl64, uint64. rewrite Z.shiftl_1_l.
  replace n with ((n - 64) + 64) by lia.
  rewrite Z.pow_add_r by lia.
  apply Z.mod_mul. lia.
Qed.

Lemma shr64_32_range (x : Z) : 0 <= x < 2 ^ 64 -> 0 <= shr64 x 32 < 2 ^ 32.
Proof.
  intros H. unfold shr64. rewrite Z.shiftr_div_pow2 by lia.
  split.
  - apply Z.div_pos; lia.
  - apply Z.div_lt_upper_bound; [lia|]. change (2 ^ 32 * 2 ^ 32) with (2 ^ 64). lia.
Qed.

End GoIntFacts.

(* ===================================================================== *)
(** ** Facts about strconv.Itoa and fields *)
(* ===================================================================== *)

Module StrconvFacts.
Import Strconv.

Lemma digitChar_isDigit (d : Z) : 0 <= d < 10 -> isDigit (digitChar d) = true.
Proof.
  intros H. unfold digitChar.
  assert (Hn : (Z.to_nat d < 10)%nat) by lia.
  destruct (Z.to_nat d) as [|[|[|[|[|[|[|[|[|[|k]]]]]]]]]]; try reflexivity; lia.
Qed.

Lemma digitValue_digitChar (d : Z) : 0 <= d < 10 -> digitValue (digitChar d) = d.
Proof.
  intros H. unfold digitValue, digitChar.
  rewrite nat_ascii_embedding by lia. lia.
Qed.

Lemma digitChar_zero (d : Z) :
  0 <= d < 10 -> Ascii.eqb (digitChar d) "0" = true -> d = 0.
Proof.
  intros H E. apply Ascii.eqb_eq in E.
  apply (f_equal digitValue) in E.
  rewrite digitValue_digitChar in E by exact H. exact E.
Qed.

Lemma mod10_range (u : Z) : 0 <= u mod 10 < 10.
Proof. apply Z.mod_pos_bound. lia. Qed.

(** A character that is not a digit is never emitted by the digit loop. *)
Lemma contains_formatBits (c : ascii) (rounds : nat) :
  isDigit c = false ->
  forall u acc, contains c (formatBits rounds u acc) = contains c acc.
Proof.
  intros Hc. induction rounds as [|r IH]; intros u acc; simpl; [reflexivity|].
  assert (Hd : Ascii.eqb c (digitChar (u mod 10)) = false).
  { destruct (Ascii.eqb_spec c (digitChar (u mod 10))) as [->|]; [|reflexivity].
    rewrite digitChar_isDigit in Hc by apply mod10_range. discriminate. }
  destruct (u <? 10).
  - simpl. rewrite Hd. reflexivity.
  - rewrite IH. simpl. rewrite Hd. reflexivity.
Qed.

Lemma allDigits_formatBits (rounds : nat) :
  forall u acc, allDigits (formatBits rounds u acc) = allDigits acc.
Proof.
  induction rounds as [|r IH]; intros u acc; cbn [formatBits]; [reflexivity|].
  assert (Hd : allDigits (String (digitChar (u mod 10)) acc) = allDigits acc).
  { cbn [allDigits]. rewrite digitChar_isDigit by apply mod10_range. reflexivity. }
  destruct (u <? 10); [exact Hd|].
  rewrite IH. exact Hd.
Qed.

Lemma append_assoc (a b c : string) : (a ++ b) ++ c = a ++ (b ++ c).
Proof. induction a as [|x a IH]; simpl; [reflexivity|now rewrite IH]. Qed.

(** The accumulator is only ever extended at the front. *)
Lemma formatBits_acc (rounds : nat) :
  forall u acc, formatBits rounds u acc = formatBits rounds u "" ++ acc.
Proof.
  induction rounds as [|r IH]; intros u acc; simpl; [reflexivity|].
  destruct (u <? 10); [reflexivity|].
  rewrite IH. rewrite (IH (u / 10) (String _ "")).
  rewrite append_assoc. reflexivity.
Qed.

Lemma numeralValue_append (s t : string) :
  forall acc, numeralValue acc (s ++ t) = numeralValue (numeralValue acc s) t.
Proof. induction s as [|c s IH]; intros acc; simpl; [reflexivity|apply IH]. Qed.

(** With enough rounds the digits read back as the number. *)
Lemma numeralValue_formatBits (rounds : nat) :
  forall u, 0 <= u < 10 ^ Z.of_nat rounds ->
            numeralValue 0 (formatBits rounds u "") = u.
Proof.
  induction rounds as [|r IH]; intros u Hu.
  - simpl in Hu. simpl. lia.
  - cbn [formatBits]. destruct (Z.ltb_spec u 10) as [Hlt|Hge].
    + cbn [numeralValue]. rewrite Z.mod_small by lia.
      rewrite digitValue_digitChar; lia.
    + rewrite formatBits_acc, numeralValue_append, IH.
      * cbn [numeralValue]. rewrite digitValue_digitChar by apply mod10_range.
        pose proof (Z.div_mod u 10). lia.
      * rewrite Nat2Z.inj_succ, Z.pow_succ_r in Hu by lia.
        split; [apply Z.div_pos; lia|].
        apply Z.div_lt_upper_bound; lia.
Qed.

(** With enough rounds the first digit of a positive number is not 0. *)
Lemma formatBits_leading (rounds : nat) :
  forall u acc, 0 < u < 10 ^ Z.of_nat rounds ->
    exists c rest, formatBits rounds u acc = String c rest /\
                   Ascii.eqb c "0" = false.
Proof.
  induction rounds as [|r IH]; intros u acc Hu.
  - simpl in Hu. lia.
  - cbn [formatBits]. destruct (Z.ltb_spec u 10) as [Hlt|Hge].
    + eexists _, _. split; [reflexivity|].
      destruct (Ascii.eqb _ "0") eqn:E; [|reflexivity].
      apply digitChar_zero in E; [|apply mod10_range].
      rewrite Z.mod_small in E by lia. lia.
    + apply IH.
      rewrite Nat2Z.inj_succ, Z.pow_succ_r in Hu by lia.
      split.
      * apply Z.div_str_pos. lia.
      * apply Z.div_lt_upper_bound; lia.
Qed.

Lemma formatUint_value (u : Z) :
  0 <= u < 10 ^ 20 -> numeralValue 0 (formatUint u) = u.
Proof. intros H. apply (numeralValue_formatBits 20). exact H. Qed.

Lemma formatUint_canonical (u : Z) :
  0 <= u < 10 ^ 20 -> canonicalDecimal (formatUint u) = true.
Proof.
  intros H. unfold formatUint.
  destruct (Z.eq_dec u 0) as [->|Hnz]; [reflexivity|].
  destruct (formatBits_leading 20 u "") as (c & rest & E & Hc).
  { change (Z.of_nat 20) with 20. lia. }
  pose proof (allDigits_formatBits 20 u "") as Hd.
  rewrite E in *. unfold canonicalDecimal. rewrite Hd, Hc. reflexivity.
Qed.

Lemma formatBits_keeps_acc (rounds : nat) :
  forall u acc, acc <> "" -> formatBits rounds u acc <> "".
Proof.
  induction rounds as [|r IH]; intros u acc H; cbn [formatBits]; [exact H|].
  destruct (u <? 10); [discriminate|]. apply IH. discriminate.
Qed.

Lemma formatBits_nonempty (rounds : nat) (u : Z) (acc : string) :
  formatBits (S rounds) u acc <> "".
Proof.
  cbn [formatBits]. destruct (u <? 10); [discriminate|].
  apply formatBits_keeps_acc. discriminate.
Qed.

Lemma formatUint_nonempty (u : Z) : formatUint u <> "".
Proof. unfold formatUint. apply (formatBits_nonempty 19). Qed.

(** [Itoa] on a non-negative [int] is the canonical numeral of its
    argument. *)
Lemma Itoa_nonneg (i : Z) :
  0 <= i < 2 ^ 63 ->
  canonicalDecimal (Itoa i) = true /\ numeralValue 0 (Itoa i) = i.
Proof.
  intros H. unfold Itoa. destruct (Z.ltb_spec i 0); [lia|].
  assert (2 ^ 63 < 10 ^ 20) by reflexivity.
  split; [apply formatUint_canonical|apply formatUint_value]; lia.
Qed.

(** [Itoa] on a negative [int] starts with a minus sign. *)
Lemma Itoa_neg (i : Z) : i < 0 -> Itoa i = String "-" (formatUint (- i)).
Proof. intros H. unfold Itoa. destruct (Z.ltb_spec i 0); [reflexivity|lia]. Qed.

(** On a negative [int] the digits are the canonical numeral of the
    magnitude. *)
Lemma Itoa_negative (i : Z) :
  - 2 ^ 63 <= i < 0 ->
  exists s, Itoa i = String "-" s /\
            canonicalDecimal s = true /\ numeralValue 0 s = - i.
Proof.
  intros H. exists (formatUint (- i)).
  assert (2 ^ 63 < 10 ^ 20) by reflexivity.
  split; [apply Itoa_neg; lia|].
  split; [apply formatUint_canonical|apply formatUint_value]; lia.
Qed.

Lemma Itoa_nonempty (i : Z) : Itoa i <> "".
Proof.
  unfold Itoa. destruct (i <? 0); [discriminate|apply formatUint_nonempty].
Qed.

Lemma Itoa_no_dot (i : Z) : contains "." (Itoa i) = false.
Proof.
  unfold Itoa, formatUint. destruct (i <? 0).
  - change (contains "." (String "-" (formatBits 20 (- i) "")))
      with (Ascii.eqb "." "-" || contains "." (formatBits 20 (- i) "")).
    rewrite contains_formatBits by reflexivity. reflexivity.
  - rewrite contains_formatBits by reflexivity. reflexivity.
Qed.

Lemma canonical_no_minus (s : string) :
  canonicalDecimal s = true -> contains "-" s = false.
Proof.
  intros H.
  assert (Hd : allDigits s = true).
  { destruct s; [discriminate|]. unfold canonicalDecimal in H.
    apply andb_true_iff in H. tauto. }
  clear H. induction s as [|c s IH]; [reflexivity|].
  cbn [allDigits] in Hd. cbn [contains].
  apply andb_true_iff in Hd. destruct Hd as [Hc Hs].
  rewrite (IH Hs), orb_false_r.
  destruct (Ascii.eqb_spec "-"%char c) as [<-|]; [|reflexivity].
  vm_compute in Hc. discriminate.
Qed.

(** *** Fields *)

Lemma contains_append (c : ascii) (a b : string) :
  contains c (a ++ b) = contains c a || contains c b.
Proof.
  induction a as [|d a IH]; [reflexivity|].
  cbn [append contains]. rewrite IH. apply orb_assoc.
Qed.

Lemma fields_no_dot (s : string) : contains "." s = false -> fields s = [s].
Proof.
  induction s as [|c s IH]; [reflexivity|].
  cbn [contains fields]. intros H.
  apply orb_false_iff in H. destruct H as [Hc Hs].
  rewrite Ascii.eqb_sym, Hc, (IH Hs). reflexivity.
Qed.

Lemma fields_dot (a b : string) :
  contains "." a = false -> fields (a ++ "." ++ b) = a :: fields b.
Proof.
  induction a as [|c a IH]; [reflexivity|].
  cbn [contains]. intros H.
  apply orb_false_iff in H. destruct H as [Hc Ha].
  change (String c a ++ "." ++ b) with (String c (a ++ "." ++ b)).
  cbn [fields]. rewrite Ascii.eqb_sym, Hc, (IH Ha). reflexivity.
Qed.

End StrconvFacts.

(* ===================================================================== *)
(** ** Facts about the Spin value *)
(* ===================================================================== *)

Module SpinFacts.
Import GoInt GoIntFacts Strconv StrconvFacts.

Lemma counterBits_cases (sp : SpinParameters) :
  counterBits sp = 0 \/ counterBits sp = 16 \/
  counterBits sp = 24 \/ counterBits sp = 32.
Proof.
  unfold counterBits.
  destruct (Periodicity sp =? ShortPeriodicity); [tauto|].
  destruct (Periodicity sp =? MediumPeriodicity); [tauto|].
  destruct (Periodicity sp =? LongPeriodicity); tauto.
Qed.

Lemma totalBits_range (sp : SpinParameters) : 0 <= totalBits sp < 2 ^ 64.
Proof. apply uint64_range. Qed.

(** Without wrap-around the total is the plain sum. *)
Lemma totalBits_valid (sp : SpinParameters) :
  validEntropy sp -> totalBits sp = counterBits sp + 8 * Entropy sp.
Proof.
  unfold validEntropy, totalBits. intros H.
  pose proof (counterBits_cases sp) as Hc.
  rewrite (uint64_small (Entropy sp)) by lia.
  rewrite uint64_small by lia. lia.
Qed.

Lemma totalBits_valid_le_64 (sp : SpinParameters) :
  validEntropy sp -> 0 <= totalBits sp <= 64.
Proof.
  intros H. rewrite (totalBits_valid sp H).
  pose proof (counterBits_cases sp). unfold validEntropy in H. lia.
Qed.

(** The packed value is a [uint64]. *)
Lemma packValue_range (sp : SpinParameters) (ticks : Z) (entropy : list byte) :
  0 <= packValue sp ticks entropy < 2 ^ 64.
Proof.
  unfold packValue.
  generalize (uint64_range (sar64 ticks (tickBitsToDrop sp))).
  generalize (uint64 (sar64 ticks (tickBitsToDrop sp))).
  induction entropy as [|b bs IH]; intros v Hv; cbn [fold_left]; [exact Hv|].
  apply IH. apply lor_range; [lia|apply shl64_range|].
  pose proof (byteZ_range b). assert (2 ^ 8 < 2 ^ 64) by reflexivity. lia.
Qed.

(** The mask, by cases on the total. *)
Lemma spinMask_below_64 (sp : SpinParameters) :
  totalBits sp < 64 -> spinMask sp = Z.ones (totalBits sp).
Proof.
  intros H. pose proof (totalBits_range sp) as Hr.
  unfold spinMask, maskOps.
  destruct (Z.eqb_spec (totalBits sp) 64); [lia|].
  cbn [app runMaskOps fold_left runMaskOp].
  rewrite shl64_one_small by lia.
  rewrite Z.ones_equiv.
  apply uint64_small.
  assert (0 < 2 ^ totalBits sp) by (apply Z.pow_pos_nonneg; lia).
  assert (2 ^ totalBits sp < 2 ^ 64) by (apply Z.pow_lt_mono_r; lia).
  lia.
Qed.

Lemma spinMask_from_64 (sp : SpinParameters) :
  64 <= totalBits sp -> spinMask sp = 2 ^ 64 - 1.
Proof.
  intros H. unfold spinMask, maskOps.
  destruct (Z.eqb_spec (totalBits sp) 64);
    cbn [app runMaskOps fold_left runMaskOp].
  - reflexivity.
  - rewrite shl64_one_large by lia. reflexivity.
Qed.

Lemma maskedValue_below_64 (sp : SpinParameters) ticks entropy :
  totalBits sp < 64 ->
  maskedValue sp ticks entropy = packValue sp ticks entropy mod 2 ^ totalBits sp.
Proof.
  intros H. unfold maskedValue. rewrite spinMask_below_64 by exact H.
  apply Z.land_ones. apply totalBits_range.
Qed.

Lemma maskedValue_from_64 (sp : SpinParameters) ticks entropy :
  64 <= totalBits sp ->
  maskedValue sp ticks entropy = packValue sp ticks entropy.
Proof.
  intros H. unfold maskedValue. rewrite spinMask_from_64 by exact H.
  change (2 ^ 64 - 1) with (Z.ones 64).
  rewrite Z.land_ones by lia.
  apply Z.mod_small. apply packValue_range.
Qed.

(** The masked value fits in [min totalBits 64] bits. *)
Lemma maskedValue_range (sp : SpinParameters) ticks entropy :
  0 <= maskedValue sp ticks entropy < 2 ^ Z.min (totalBits sp) 64.
Proof.
  pose proof (totalBits_range sp) as Hr.
  destruct (Z.lt_ge_cases (totalBits sp) 64) as [H|H].
  - rewrite Z.min_l by lia. rewrite maskedValue_below_64 by exact H.
    apply Z.mod_pos_bound. apply Z.pow_pos_nonneg; lia.
  - rewrite Z.min_r by lia. rewrite maskedValue_from_64 by exact H.
    apply packValue_range.
Qed.

Lemma maskedValue_uint64 (sp : SpinParameters) ticks entropy :
  0 <= maskedValue sp ticks entropy < 2 ^ 64.
Proof.
  pose proof (maskedValue_range sp ticks entropy) as H.
  pose proof (totalBits_range sp) as Hr.
  assert (2 ^ Z.min (totalBits sp) 64 <= 2 ^ 64)
    by (apply Z.pow_le_mono_r; lia).
  lia.
Qed.

(** *** The formatted suffix *)

(** The two shapes of the suffix. *)
Lemma formatSpin_one (sp : SpinParameters) (value : Z) :
  totalBits sp <= 32 -> formatSpin sp value = Itoa (int value).
Proof.
  intros H. unfold formatSpin.
  destruct (Z.ltb_spec 32 (totalBits sp)); [lia|reflexivity].
Qed.

Lemma formatSpin_two (sp : SpinParameters) (value : Z) :
  32 < totalBits sp ->
  formatSpin sp value =
  Itoa (int (shr64 value 32)) ++ "." ++ Itoa (int value).
Proof.
  intros H. unfold formatSpin.
  destruct (Z.ltb_spec 32 (totalBits sp)); [reflexivity|lia].
Qed.

Lemma fields_formatSpin (sp : SpinParameters) (value : Z) :
  fields (formatSpin sp value) =
  if 32 <? totalBits sp
  then [Itoa (int (shr64 value 32)); Itoa (int value)]
  else [Itoa (int value)].
Proof.
  unfold formatSpin. destruct (32 <? totalBits sp).
  - rewrite fields_dot by apply Itoa_no_dot.
    rewrite fields_no_dot by apply Itoa_no_dot. reflexivity.
  - apply fields_no_dot, Itoa_no_dot.
Qed.

(** A value below [2^63] is printed as canonical numerals throughout. *)
Lemma formatSpin_canonical (sp : SpinParameters) (value : Z) :
  0 <= value < 2 ^ 63 ->
  Forall (fun f => canonicalDecimal f = true) (fields (formatSpin sp value)).
Proof.
  intros H. rewrite fields_formatSpin.
  assert (Hlo : canonicalDecimal (Itoa (int value)) = true).
  { rewrite int_small by exact H. apply Itoa_nonneg. exact H. }
  destruct (32 <? totalBits sp); [|now repeat constructor].
  assert (H64 : 0 <= value < 2 ^ 64)
    by (assert (2 ^ 63 < 2 ^ 64) by reflexivity; lia).
  pose proof (shr64_32_range value H64) as Hhi.
  assert (2 ^ 32 < 2 ^ 63) by reflexivity.
  repeat constructor; [|exact Hlo].
  rewrite int_small by lia. apply Itoa_nonneg. lia.
Qed.

End SpinFacts.

(* ===================================================================== *)
(** ** Facts about a call of SpinWithParameters *)
(* ===================================================================== *)

Section RunFacts.

Context {Version Error : Type}.
Variable inferVersion : string -> Version + Error.
Variable validate : string -> Version -> option Error.

Local Abbreviation run := (SpinWithParameters inferVersion validate).

(** Version inference failed: the error is returned at once. *)
Lemma run_infer_error base ptr w e :
  inferVersion base = inr e ->
  run base ptr w = Returned (None, Some e) w.
Proof. intros H. unfold SpinWithParameters. rewrite H. reflexivity. Qed.

(** Validation failed: the error is returned at once. *)
Lemma run_validate_error base ptr w v e :
  inferVersion base = inl v -> validationError validate w base v = Some e ->
  run base ptr w = Returned (None, Some e) w.
Proof.
  intros H G. unfold SpinWithParameters, validationError in *. rewrite H.
  unfold bind, readValidateFlag. rewrite G. reflexivity.
Qed.

(** A nil [parameters] panics once the checks have passed. *)
Lemma run_nil base w v :
  inferVersion base = inl v -> validationError validate w base v = None ->
  exists reason, run base None w = Panicked reason.
Proof.
  intros H G. unfold SpinWithParameters, validationError in *. rewrite H.
  unfold bind, readValidateFlag. rewrite G. eexists. reflexivity.
Qed.

(** An [Entropy] that is negative or above the allocation limit panics in
    [make]. *)
Lemma run_bad_length base sp w v :
  inferVersion base = inl v -> validationError validate w base v = None ->
  Entropy sp < 0 \/ maxAlloc < Entropy sp ->
  exists reason, run base (Some sp) w = Panicked reason.
Proof.
  intros H G Hn. unfold SpinWithParameters, validationError in *. rewrite H.
  unfold bind, readValidateFlag. rewrite G.
  unfold deref, ret, makeBytes.
  destruct (Z.ltb_spec (Entropy sp) 0); [eexists; reflexivity|].
  destruct (Z.ltb_spec maxAlloc (Entropy sp)); [eexists; reflexivity|lia].
Qed.

(** Otherwise the call spins. *)
Lemma run_spin base sp w v :
  inferVersion base = inl v -> validationError validate w base v = None ->
  0 <= Entropy sp <= maxAlloc ->
  run base (Some sp) w =
  Returned (Some (spun w base sp v), None)
           (afterSpin w (Z.to_nat (Entropy sp))).
Proof.
  intros H G Hn. unfold SpinWithParameters, validationError in *. rewrite H.
  unfold bind, readValidateFlag. rewrite G.
  unfold deref, ret, makeBytes.
  destruct (Z.ltb_spec (Entropy sp) 0); [lia|].
  destruct (Z.ltb_spec maxAlloc (Entropy sp)); [lia|].
  cbn [orb].
  unfold randRead, timeNowUnixNano. cbv beta iota zeta delta [ret].
  rewrite repeat_length. reflexivity.
Qed.

(** Valid parameters are within the allocation limit. *)
Lemma validEntropy_allocates (sp : SpinParameters) :
  validEntropy sp -> 0 <= Entropy sp <= maxAlloc.
Proof.
  unfold validEntropy. intros H.
  assert (4 <= maxAlloc) by (vm_compute; discriminate). lia.
Qed.

(** Every outcome of a call is one of the five above. *)
Lemma run_cases base ptr w :
  (exists e, inferVersion base = inr e /\
             run base ptr w = Returned (None, Some e) w) \/
  (exists v e, inferVersion base = inl v /\ validationError validate w base v = Some e /\
               run base ptr w = Returned (None, Some e) w) \/
  (exists v sp, inferVersion base = inl v /\ validationError validate w base v = None /\
                ptr = Some sp /\ 0 <= Entropy sp <= maxAlloc /\
                run base ptr w =
                Returned (Some (spun w base sp v), None)
                         (afterSpin w (Z.to_nat (Entropy sp)))) \/
  (exists v reason, inferVersion base = inl v /\ validationError validate w base v = None /\
                    (ptr = None \/
                     exists sp, ptr = Some sp /\
                                (Entropy sp < 0 \/ maxAlloc < Entropy sp)) /\
                    run base ptr w = Panicked reason).
Proof.
  destruct (inferVersion base) as [v|e] eqn:H.
  - destruct (validationError validate w base v) as [e|] eqn:G.
    + right; left. exists v, e. repeat split; try assumption.
      eapply run_validate_error; eassumption.
    + destruct ptr as [sp|].
      * destruct (Z.lt_ge_cases (Entropy sp) 0) as [Hn|Hn];
          [|destruct (Z.lt_ge_cases maxAlloc (Entropy sp)) as [Hm|Hm]].
        -- right; right; right.
           destruct (run_bad_length base sp w v H G (or_introl Hn)) as [r Hr].
           exists v, r. repeat split; try assumption.
           right. exists sp. split; [reflexivity|now left].
        -- right; right; right.
           destruct (run_bad_length base sp w v H G (or_intror Hm)) as [r Hr].
           exists v, r. repeat split; try assumption.
           right. exists sp. split; [reflexivity|now right].
        -- right; right; left. exists v, sp. repeat split; try assumption.
           apply run_spin; [assumption|assumption|lia].
      * right; right; right.
        destruct (run_nil base w v H G) as [r Hr].
        exists v, r. repeat split; try assumption. now left.
  - left. exists e. split; [reflexivity|]. now apply run_infer_error.
Qed.

(** A call that returns a vector spun it. *)
Lemma run_returns_vector base ptr w cv err w' :
  run base ptr w = Returned (Some cv, err) w' ->
  exists v sp, inferVersion base = inl v /\ validationError validate w base v = None /\
               ptr = Some sp /\ 0 <= Entropy sp <= maxAlloc /\
               cv = spun w base sp v /\ err = None /\
               w' = afterSpin w (Z.to_nat (Entropy sp)).
Proof.
  intros R.
  destruct (run_cases base ptr w)
    as [(e & _ & E)|[(v & e & _ & _ & E)|[(v & sp & H & G & P & N & E)|(v & r & _ & _ & _ & E)]]];
    rewrite E in R; try discriminate.
  inversion R; subst. exists v, sp. repeat split; try assumption; apply N.
Qed.

End RunFacts.

(* ===================================================================== *)
(** ** The claims *)
(* ===================================================================== *)

Import GoInt GoIntFacts Strconv StrconvFacts SpinFacts.

(** *** C1: the two fields when more than 32 bits are kept *)

(** C1. The claim: with [totalBits > 32] the suffix is two decimal fields,
    the first the high 32 bits of the masked value, the second its low 32
    bits (the value modulo [2^32]). The code prints the whole masked value as
    the second field: line 113 formats [int(value)] and line 115 only puts
    [value>>32] in front of it. Run on a clock reading of 2026-10-31 with
    MediumPeriodicity and TwoEntropy: the masked value is
    [182 * 2^32 + 3958374405], the fields are ["182"] and ["785642422277"],
    where the claim has ["3958374405"]. *)
Theorem C1_second_field_is_whole_value :
  let sp := mkSpinParameters CoarseInterval MediumPeriodicity TwoEntropy in
  let w := Doubles.world true 1793404800000000000 [x00; x05] in
  let value := maskedValue sp (ticksOf w) (entropyOf w 2) in
  32 < totalBits sp /\
  value = 182 * 2 ^ 32 + 3958374405 /\
  resultOf (Doubles.spin "abc.1" (Some sp) w) =
    Some (Some (newCorrelationVector "abc.1.182.785642422277" 0 Doubles.V1), None) /\
  fields (spinSuffix sp (ticksOf w) (entropyOf w 2)) = ["182"; "785642422277"] /\
  Itoa (shr64 value 32) = "182" /\
  Itoa (value mod 2 ^ 32) = "3958374405".
Proof. cbv zeta. repeat split; vm_compute; reflexivity. Qed.

(** What the code does for every input: above 32 bits the second field is
    the numeral of the whole masked value. *)
Lemma second_field_in_general (sp : SpinParameters) ticks entropy :
  32 < totalBits sp ->
  fields (spinSuffix sp ticks entropy) =
  [Itoa (int (shr64 (maskedValue sp ticks entropy) 32));
   Itoa (int (maskedValue sp ticks entropy))].
Proof.
  intros H. unfold spinSuffix. rewrite fields_formatSpin.
  destruct (Z.ltb_spec 32 (totalBits sp)); [reflexivity|lia].
Qed.

(** *** C3: the fields as non-negative numerals *)

(** C3. The claim: for valid parameters every field of the suffix is a
    non-negative decimal numeral without a minus sign. With LongPeriodicity
    and FourEntropy all 64 bits are kept, and line 113 converts the [uint64]
    to [int] before printing it: the second field is negative once bit 63 of
    the value is set, which is bit 55 of the tick count with CoarseInterval
    (clock readings from the year 2084 on, as below) and bit 47 with
    FineInterval. *)
Theorem C3_minus_sign_at_64_bits :
  let sp := mkSpinParameters CoarseInterval LongPeriodicity FourEntropy in
  let w := Doubles.world true 3602879701896396800 [x00; x00; x00; x00] in
  validEntropy sp /\
  ticksOf w = 2 ^ 55 /\
  resultOf (Doubles.spin "abc.1" (Some sp) w) =
    Some (Some (newCorrelationVector
                  "abc.1.2147483648.-9223372036854775808" 0 Doubles.V1), None) /\
  fields (spinSuffix sp (ticksOf w) (entropyOf w 4)) =
    ["2147483648"; "-9223372036854775808"] /\
  contains "-" (spinSuffix sp (ticksOf w) (entropyOf w 4)) = true.
Proof.
  cbv zeta. split; [unfold validEntropy, FourEntropy; cbn; lia|].
  repeat split; vm_compute; reflexivity.
Qed.

(** Where the fields are what C3 says: whenever the masked value is below
    [2^63], which holds for every valid combination that keeps fewer than 64
    bits. *)
Lemma fields_canonical_below_64_bits (sp : SpinParameters) ticks entropy :
  totalBits sp < 64 ->
  Forall (fun f => canonicalDecimal f = true /\ contains "-" f = false)
         (fields (spinSuffix sp ticks entropy)).
Proof.
  intros H. unfold spinSuffix.
  pose proof (maskedValue_range sp ticks entropy) as Hr.
  pose proof (totalBits_range sp) as Ht.
  rewrite Z.min_l in Hr by lia.
  assert (2 ^ totalBits sp <= 2 ^ 63) by (apply Z.pow_le_mono_r; lia).
  eapply Forall_impl; [|apply formatSpin_canonical; lia].
  intros f Hf. split; [exact Hf|now apply canonical_no_minus].
Qed.

(** *** C4: the mask when all 64 bits are kept *)

(** C4, the claim as stated fails. It says that with LongPeriodicity and
    FourEntropy no shift of a 64-bit integer by 64 is performed. Line 106
    shifts by [totalBits()] before the test of line 107, so the shift by 64
    is the first of the three assignments. *)
Lemma C4_shift_by_64_is_performed :
  let sp := mkSpinParameters CoarseInterval LongPeriodicity FourEntropy in
  Periodicity sp = LongPeriodicity /\ Entropy sp = FourEntropy /\
  totalBits sp = 64 /\
  In (OpShiftOne 64) (maskOps sp).
Proof. cbv zeta. repeat split. left. reflexivity. Qed.

(** C4, amended. With LongPeriodicity and FourEntropy [totalBits] is 64; the
    shift by 64 is carried out (Go defines it, the result is 0), its result
    is overwritten by the [totalBits == 64] branch, so the mask is all ones
    whatever a shift by 64 yields, and masking leaves the packed value
    unchanged. *)
Theorem C4_mask_all_ones_at_64_bits (sp : SpinParameters) :
  Periodicity sp = LongPeriodicity -> Entropy sp = FourEntropy ->
  totalBits sp = 64 /\
  maskOps sp = [OpShiftOne 64; OpZero; OpDecrement] /\
  shl64 1 64 = 0 /\
  (forall shl, runMaskOps shl (maskOps sp) = 2 ^ 64 - 1) /\
  spinMask sp = 2 ^ 64 - 1 /\
  (forall ticks entropy,
      maskedValue sp ticks entropy = packValue sp ticks entropy).
Proof.
  intros HP HE.
  assert (Ht : totalBits sp = 64).
  { unfold totalBits, counterBits. rewrite HP, HE. reflexivity. }
  assert (Hops : maskOps sp = [OpShiftOne 64; OpZero; OpDecrement]).
  { unfold maskOps. rewrite Ht. reflexivity. }
  split; [exact Ht|]. split; [exact Hops|]. split; [reflexivity|].
  split; [intros shl; rewrite Hops; reflexivity|].
  split; [unfold spinMask; rewrite Hops; reflexivity|].
  intros ticks entropy. apply maskedValue_from_64. lia.
Qed.

Lemma C4_mask_all_ones_witness :
  let sp := mkSpinParameters FineInterval LongPeriodicity FourEntropy in
  spinMask sp = 18446744073709551615 /\
  maskedValue sp 179340480000000000 [xff; x00; xff; x01] =
  packValue sp 179340480000000000 [xff; x00; xff; x01].
Proof.
  cbv zeta.
  pose proof (C4_mask_all_ones_at_64_bits
                (mkSpinParameters FineInterval LongPeriodicity FourEntropy)
                eq_refl eq_refl) as (_ & _ & _ & _ & Hm & Hv).
  split; [exact Hm|apply Hv].
Defined.

(** *** C2: the prefix and the number of fields *)

(** C2. Whenever [SpinWithParameters] returns a vector, for any parameters,
    its string is the base CV, a ['.'] and a suffix; the suffix is one
    non-empty field without a ['.'] when [totalBits <= 32], and two such
    fields joined by a ['.'] when [totalBits > 32]. *)
Theorem C2_prefix_and_field_count {Version Error : Type}
        (inferVersion : string -> Version + Error)
        (validate : string -> Version -> option Error)
        (base : string) (ptr : option SpinParameters) (w w' : World)
        (cv : CorrelationVector Version) (err : option Error) :
  SpinWithParameters inferVersion validate base ptr w = Returned (Some cv, err) w' ->
  exists sp suffix,
    ptr = Some sp /\
    cvString cv = base ++ "." ++ suffix /\
    Forall (fun f => f <> "") (fields suffix) /\
    (totalBits sp <= 32 -> exists f, fields suffix = [f]) /\
    (32 < totalBits sp ->
     exists hi lo, suffix = hi ++ "." ++ lo /\ fields suffix = [hi; lo]).
Proof.
  intros R.
  destruct (run_returns_vector _ _ _ _ _ _ _ _ R)
    as (v & sp & _ & _ & P & _ & C & _ & _).
  exists sp, (spinSuffix sp (ticksOf w) (entropyOf w (Z.to_nat (Entropy sp)))).
  split; [exact P|]. split; [subst cv; reflexivity|].
  unfold spinSuffix. rewrite fields_formatSpin. unfold formatSpin.
  destruct (Z.ltb_spec 32 (totalBits sp)) as [Hgt|Hle].
  - split; [repeat constructor; apply Itoa_nonempty|].
    split; [lia|]. intros _. eexists _, _. split; reflexivity.
  - split; [repeat constructor; apply Itoa_nonempty|].
    split; [|lia]. intros _. eexists. reflexivity.
Qed.

Lemma C2_prefix_and_field_count_witness :
  exists sp suffix,
    Some defaultParameters = Some sp /\
    "abc.1.327938" = "abc.1" ++ "." ++ suffix /\
    Forall (fun f => f <> "") (fields suffix) /\
    (totalBits sp <= 32 -> exists f, fields suffix = [f]) /\
    (32 < totalBits sp ->
     exists hi lo, suffix = hi ++ "." ++ lo /\ fields suffix = [hi; lo]).
Proof.
  apply (C2_prefix_and_field_count
           Doubles.inferVersion Doubles.validate "abc.1"
           (Some defaultParameters)
           (Doubles.world true 8388608000 [x01; x02])
           (afterSpin (Doubles.world true 8388608000 [x01; x02]) 2)
           (newCorrelationVector "abc.1.327938" 0 Doubles.V1) None).
  vm_compute. reflexivity.
Defined.

(** *** C5: the width of the masked value *)

(** C5. For valid parameters, any tick count and any entropy bytes, the
    masked value is below [2^(counterBits + 8*Entropy)], and the suffix has
    at most two fields. *)
Theorem C5_bit_width_bound (sp : SpinParameters) (ticks : Z) (entropy : list byte) :
  validEntropy sp ->
  0 <= maskedValue sp ticks entropy < 2 ^ (counterBits sp + 8 * Entropy sp) /\
  (List.length (fields (spinSuffix sp ticks entropy)) <= 2)%nat.
Proof.
  intros H. split.
  - pose proof (maskedValue_range sp ticks entropy) as Hr.
    pose proof (totalBits_valid_le_64 sp H) as Hle.
    rewrite Z.min_l in Hr by lia.
    rewrite <- (totalBits_valid sp H). exact Hr.
  - unfold spinSuffix. rewrite fields_formatSpin.
    destruct (32 <? totalBits sp); simpl; lia.
Qed.

Lemma C5_bit_width_bound_witness :
  let sp := mkSpinParameters FineInterval MediumPeriodicity ThreeEntropy in
  validEntropy sp /\
  0 <= maskedValue sp 179340480000000000 [xff; xfe; xfd] < 2 ^ 48 /\
  (List.length (fields (spinSuffix sp 179340480000000000 [xff; xfe; xfd])) <= 2)%nat.
Proof.
  cbv zeta.
  assert (H : validEntropy (mkSpinParameters FineInterval MediumPeriodicity ThreeEntropy))
    by (unfold validEntropy, ThreeEntropy; cbn; lia).
  split; [exact H|].
  exact (C5_bit_width_bound
           (mkSpinParameters FineInterval MediumPeriodicity ThreeEntropy)
           179340480000000000 [xff; xfe; xfd] H).
Defined.

(** *** C6: determinism *)

(** C6. Two calls with the same base CV and the same parameters, in worlds
    that agree on the tick count and on the entropy bytes drawn, return the
    same vector whenever both return one, and its string is the base CV, a
    ['.'] and the suffix computed from the tick count, the bytes and the
    parameters alone; if the worlds also agree on the validation flag the
    two calls give the same result altogether. *)
Theorem C6_deterministic {Version Error : Type}
        (inferVersion : string -> Version + Error)
        (validate : string -> Version -> option Error)
        (base : string) (sp : SpinParameters) (w1 w2 : World) :
  ticksOf w1 = ticksOf w2 ->
  entropyOf w1 (Z.to_nat (Entropy sp)) = entropyOf w2 (Z.to_nat (Entropy sp)) ->
  (forall cv1 e1 w1' cv2 e2 w2',
      SpinWithParameters inferVersion validate base (Some sp) w1
        = Returned (Some cv1, e1) w1' ->
      SpinWithParameters inferVersion validate base (Some sp) w2
        = Returned (Some cv2, e2) w2' ->
      cv1 = cv2 /\
      cvString cv1 =
      base ++ "." ++
      spinSuffix sp (ticksOf w1) (entropyOf w1 (Z.to_nat (Entropy sp)))) /\
  (ValidateCorrelationVectorDuringCreation w1
     = ValidateCorrelationVectorDuringCreation w2 ->
   resultOf (SpinWithParameters inferVersion validate base (Some sp) w1) =
   resultOf (SpinWithParameters inferVersion validate base (Some sp) w2)).
Proof.
  intros HT HE.
  assert (Hspun : forall v : Version, spun w1 base sp v = spun w2 base sp v).
  { intros v. unfold spun. rewrite HT, HE. reflexivity. }
  split.
  - intros cv1 e1 w1' cv2 e2 w2' R1 R2.
    destruct (run_returns_vector _ _ _ _ _ _ _ _ R1)
      as (v1 & sp1 & I1 & _ & P1 & _ & C1 & _ & _).
    destruct (run_returns_vector _ _ _ _ _ _ _ _ R2)
      as (v2 & sp2 & I2 & _ & P2 & _ & C2 & _ & _).
    inversion P1; inversion P2; subst sp1 sp2.
    rewrite I1 in I2. inversion I2; subst v2.
    subst cv1 cv2. split; [apply Hspun|reflexivity].
  - intros HF.
    assert (HG : forall v : Version, validationError validate w1 base v = validationError validate w2 base v).
    { intros v. unfold validationError. rewrite HF. reflexivity. }
    destruct (run_cases inferVersion validate base (Some sp) w1)
      as [(e & I & R)|[(v & e & I & G & R)|[(v & sp' & I & G & P & N & R)|(v & r & I & G & P & R)]]];
      rewrite R.
    + rewrite (run_infer_error _ _ _ _ w2 e I). reflexivity.
    + rewrite HG in G.
      rewrite (run_validate_error _ _ _ _ w2 v e I G). reflexivity.
    + inversion P; subst sp'. rewrite HG in G.
      rewrite (run_spin _ _ _ _ w2 v I G N). cbn [resultOf].
      rewrite Hspun. reflexivity.
    + rewrite HG in G. destruct P as [P|(sp' & P & N)]; [discriminate|].
      inversion P; subst sp'.
      destruct (run_bad_length _ _ _ _ w2 v I G N) as [r2 R2].
      rewrite R2. reflexivity.
Qed.

Lemma C6_deterministic_witness :
  let w1 := Doubles.world true 8388608000 [x01; x02; x03] in
  let w2 := Doubles.world false 8388608099 [x01; x02; x09] in
  ticksOf w1 = ticksOf w2 /\
  entropyOf w1 2 = entropyOf w2 2 /\
  resultOf (Doubles.spin "abc.1" (Some defaultParameters) w1) =
  resultOf (Doubles.spin "abc.1" (Some defaultParameters) w2).
Proof.
  cbv zeta. split; [reflexivity|]. split; [reflexivity|].
  pose proof (C6_deterministic
                Doubles.inferVersion Doubles.validate "abc.1" defaultParameters
                (Doubles.world true 8388608000 [x01; x02; x03])
                (Doubles.world false 8388608099 [x01; x02; x09])
                eq_refl eq_refl) as [Hcv _].
  specialize (Hcv _ _ _ _ _ _ eq_refl eq_refl). destruct Hcv as [Hcv _].
  unfold Doubles.spin.
  change (Some (Some (newCorrelationVector "abc.1.327938" 0 Doubles.V1),
                @None Doubles.Error) =
          Some (Some (newCorrelationVector "abc.1.327938" 0 Doubles.V1),
                @None Doubles.Error)).
  rewrite Hcv at 1. reflexivity.
Defined.

(** *** C7: validation is gated by the flag *)

(** C7. Take a base CV whose version is inferred and which the validator
    rejects. With the flag enabled the call returns no vector and the
    validator's error, and leaves the world as it was. With the flag disabled
    the validator has no part in the call (any validator gives the same
    outcome), and the call spins: for valid parameters it returns the spun
    vector and no error. *)
Theorem C7_validation_gating {Version Error : Type}
        (inferVersion : string -> Version + Error)
        (validate : string -> Version -> option Error)
        (base : string) (ptr : option SpinParameters) (w : World)
        (v : Version) (e : Error) :
  inferVersion base = inl v ->
  validate base v = Some e ->
  (ValidateCorrelationVectorDuringCreation w = true ->
   SpinWithParameters inferVersion validate base ptr w
     = Returned (None, Some e) w) /\
  (ValidateCorrelationVectorDuringCreation w = false ->
   (forall validate',
       SpinWithParameters inferVersion validate' base ptr w =
       SpinWithParameters inferVersion validate base ptr w) /\
   (forall sp, ptr = Some sp -> validEntropy sp ->
       SpinWithParameters inferVersion validate base ptr w =
       Returned (Some (spun w base sp v), None)
                (afterSpin w (Z.to_nat (Entropy sp))))).
Proof.
  intros I V. split; intros F.
  - apply run_validate_error with v; [exact I|].
    unfold validationError. rewrite F. exact V.
  - split.
    + intros validate'. unfold SpinWithParameters. rewrite I.
      unfold bind, readValidateFlag. rewrite F. reflexivity.
    + intros sp -> N. apply run_spin;
        [exact I| |apply validEntropy_allocates; exact N].
      unfold validationError. rewrite F. reflexivity.
Qed.

Lemma C7_validation_gating_witness :
  Doubles.validate "a!c.1" Doubles.V1 = Some "invalid character" /\
  Doubles.spin "a!c.1" (Some defaultParameters)
               (Doubles.world true 8388608000 [x01; x02])
    = Returned (None, Some "invalid character")
               (Doubles.world true 8388608000 [x01; x02]) /\
  resultOf (Doubles.spin "a!c.1" (Some defaultParameters)
                         (Doubles.world false 8388608000 [x01; x02]))
    = Some (Some (newCorrelationVector "a!c.1.327938" 0 Doubles.V1), None).
Proof.
  split; [reflexivity|]. split.
  - exact (proj1 (C7_validation_gating
                    Doubles.inferVersion Doubles.validate "a!c.1"
                    (Some defaultParameters)
                    (Doubles.world true 8388608000 [x01; x02])
                    Doubles.V1 "invalid character" eq_refl eq_refl) eq_refl).
  - unfold Doubles.spin.
    rewrite (proj2 (proj2 (C7_validation_gating
                    Doubles.inferVersion Doubles.validate "a!c.1"
                    (Some defaultParameters)
                    (Doubles.world false 8388608000 [x01; x02])
                    Doubles.V1 "invalid character" eq_refl eq_refl) eq_refl)
                   defaultParameters eq_refl
                   ltac:(unfold validEntropy; cbn; unfold TwoEntropy; lia)).
    reflexivity.
Defined.

(** *** C8: the error paths *)

(** C8. What a call of [SpinWithParameters] does, path by path.
    - [inferVersion] fails: the call returns no vector and that error at
      once, whatever the parameters; the world is as before, so no entropy
      was drawn and the clock was not read.
    - [inferVersion] succeeds, the flag is enabled and [validate] fails: the
      call returns no vector and the validator's error, the world as before.
    - Otherwise, for valid parameters: the call returns the spun vector and
      a nil error, after one draw from the random source and one reading of
      the clock.
    - There is no other way to return: every return is a vector with a nil
      error, or no vector with an error that is the one of [inferVersion] or,
      with the flag enabled, the one of [validate], the world untouched. *)
Theorem C8_error_paths {Version Error : Type}
        (inferVersion : string -> Version + Error)
        (validate : string -> Version -> option Error)
        (base : string) (ptr : option SpinParameters) (w : World) :
  (forall e, inferVersion base = inr e ->
             SpinWithParameters inferVersion validate base ptr w
               = Returned (None, Some e) w) /\
  (forall v e, inferVersion base = inl v ->
               ValidateCorrelationVectorDuringCreation w = true ->
               validate base v = Some e ->
               SpinWithParameters inferVersion validate base ptr w
                 = Returned (None, Some e) w) /\
  (forall v sp, inferVersion base = inl v ->
                (ValidateCorrelationVectorDuringCreation w = false \/
                 validate base v = None) ->
                ptr = Some sp -> validEntropy sp ->
                SpinWithParameters inferVersion validate base ptr w
                  = Returned (Some (spun w base sp v), None)
                             (afterSpin w (Z.to_nat (Entropy sp)))) /\
  (forall r w',
      SpinWithParameters inferVersion validate base ptr w = Returned r w' ->
      (exists cv, r = (Some cv, None)) \/
      (exists e, r = (None, Some e) /\ w' = w /\
                 (inferVersion base = inr e \/
                  exists v, inferVersion base = inl v /\
                            ValidateCorrelationVectorDuringCreation w = true /\
                            validate base v = Some e))).
Proof.
  split; [|split; [|split]].
  - intros e I. now apply run_infer_error.
  - intros v e I F V. apply run_validate_error with v; [exact I|].
    unfold validationError. rewrite F. exact V.
  - intros v sp I G -> N. apply run_spin;
      [exact I| |apply validEntropy_allocates; exact N].
    unfold validationError.
    destruct G as [F|V]; [rewrite F; reflexivity|].
    rewrite V. destruct (ValidateCorrelationVectorDuringCreation w); reflexivity.
  - intros r w' R.
    destruct (run_cases inferVersion validate base ptr w)
      as [(e & I & E)|[(v & e & I & G & E)|[(v & sp & I & G & P & N & E)|(v & x & I & G & P & E)]]];
      rewrite E in R; try discriminate; inversion R; subst.
    + right. exists e. repeat split. now left.
    + right. exists e. repeat split. right. exists v.
      unfold validationError in G.
      destruct (ValidateCorrelationVectorDuringCreation w');
        [repeat split; assumption|discriminate].
    + left. eexists. reflexivity.
Qed.

Lemma C8_error_paths_witness :
  Doubles.spin "abc" (Some defaultParameters)
               (Doubles.world true 8388608000 [x01; x02])
    = Returned (None, Some "cannot infer the version")
               (Doubles.world true 8388608000 [x01; x02]) /\
  Doubles.spin "a!c.1" (Some defaultParameters)
               (Doubles.world true 8388608000 [x01; x02])
    = Returned (None, Some "invalid character")
               (Doubles.world true 8388608000 [x01; x02]) /\
  Doubles.spin "abc.1" (Some defaultParameters)
               (Doubles.world true 8388608000 [x01; x02])
    = Returned (Some (newCorrelationVector "abc.1.327938" 0 Doubles.V1), None)
               (afterSpin (Doubles.world true 8388608000 [x01; x02]) 2).
Proof.
  split; [|split].
  - exact (proj1 (C8_error_paths
                    Doubles.inferVersion Doubles.validate "abc"
                    (Some defaultParameters)
                    (Doubles.world true 8388608000 [x01; x02]))
                 "cannot infer the version" eq_refl).
  - exact (proj1 (proj2 (C8_error_paths
                    Doubles.inferVersion Doubles.validate "a!c.1"
                    (Some defaultParameters)
                    (Doubles.world true 8388608000 [x01; x02])))
                 Doubles.V1 "invalid character" eq_refl eq_refl eq_refl).
  - exact (proj1 (proj2 (proj2 (C8_error_paths
                    Doubles.inferVersion Doubles.validate "abc.1"
                    (Some defaultParameters)
                    (Doubles.world true 8388608000 [x01; x02]))))
                 Doubles.V1 defaultParameters eq_refl (or_intror eq_refl)
                 eq_refl
                 ltac:(unfold validEntropy; cbn; unfold TwoEntropy; lia)).
Defined.

(** *** C9: the worked example *)

(** C9, the claim as stated fails. With the default parameters, a shifted
    tick value of 5 and the entropy bytes 1 and 2, the packed value is
    [(5<<8|1)<<8|2], which is 327938 and not 328706, and the vector returned
    for ["abc.1"] is not ["abc.1.328706"]. *)
Lemma C9_packed_value_is_not_328706 :
  let w := Doubles.world true 8388608000 [x01; x02] in
  sar64 (ticksOf w) (tickBitsToDrop defaultParameters) = 5 /\
  entropyOf w 2 = [x01; x02] /\
  Z.lor (shl64 (Z.lor (shl64 5 8) 1) 8) 2 <> 328706 /\
  packValue defaultParameters (ticksOf w) (entropyOf w 2) <> 328706 /\
  resultOf (Doubles.spin "abc.1" (Some defaultParameters) w) <>
  Some (Some (newCorrelationVector "abc.1.328706" 0 Doubles.V1), None).
Proof.
  cbv zeta. repeat split; vm_compute; discriminate.
Qed.

(** C9, amended. With the default parameters, a shifted tick value of 5 and
    the entropy bytes 1 and 2, the packed value is [(5<<8|1)<<8|2 = 327938],
    masking with [totalBits = 32] leaves it unchanged, and a call on
    ["abc.1"] that passes the checks returns the vector ["abc.1.327938"]. *)
Theorem C9_default_example {Version Error : Type}
        (inferVersion : string -> Version + Error)
        (validate : string -> Version -> option Error)
        (w : World) (v : Version) :
  inferVersion "abc.1" = inl v ->
  validationError validate w "abc.1" v = None ->
  sar64 (ticksOf w) (tickBitsToDrop defaultParameters) = 5 ->
  entropyOf w 2 = [x01; x02] ->
  packValue defaultParameters (ticksOf w) (entropyOf w 2)
    = Z.lor (shl64 (Z.lor (shl64 5 8) 1) 8) 2 /\
  packValue defaultParameters (ticksOf w) (entropyOf w 2) = 327938 /\
  totalBits defaultParameters = 32 /\
  maskedValue defaultParameters (ticksOf w) (entropyOf w 2) = 327938 /\
  SpinWithParameters inferVersion validate "abc.1" (Some defaultParameters) w
    = Returned (Some (newCorrelationVector "abc.1.327938" 0 v), None)
               (afterSpin w 2).
Proof.
  intros I G HT HE.
  assert (HP : packValue defaultParameters (ticksOf w) (entropyOf w 2) = 327938).
  { unfold packValue. rewrite HT, HE. reflexivity. }
  assert (HM : maskedValue defaultParameters (ticksOf w) (entropyOf w 2) = 327938).
  { unfold maskedValue. rewrite HP. reflexivity. }
  split; [rewrite HP; reflexivity|]. split; [exact HP|].
  split; [reflexivity|]. split; [exact HM|].
  rewrite (run_spin inferVersion validate "abc.1" defaultParameters w v I G)
    by (vm_compute; split; discriminate).
  unfold spun, spinSuffix.
  change (Z.to_nat (Entropy defaultParameters)) with 2%nat.
  rewrite HM. reflexivity.
Qed.

Lemma C9_default_example_witness :
  Doubles.spin "abc.1" (Some defaultParameters)
               (Doubles.world true 8388608000 [x01; x02])
  = Returned (Some (newCorrelationVector "abc.1.327938" 0 Doubles.V1), None)
             (afterSpin (Doubles.world true 8388608000 [x01; x02]) 2).
Proof.
  exact (proj2 (proj2 (proj2 (proj2
    (C9_default_example Doubles.inferVersion Doubles.validate
       (Doubles.world true 8388608000 [x01; x02]) Doubles.V1
       eq_refl eq_refl eq_refl eq_refl))))).
Defined.

(** *** C10: no counter and no entropy *)

(** C10. With NoPeriodicity and NoEntropy, whatever the interval:
    [totalBits] is 0, the mask is 0, the suffix is ["0"] for every tick count
    and every entropy, every vector the call returns has the string of the
    base CV followed by [".0"], and the call does return that vector once the
    checks have passed, whatever the clock and the random source. *)
Theorem C10_no_bits_gives_zero {Version Error : Type}
        (inferVersion : string -> Version + Error)
        (validate : string -> Version -> option Error)
        (base : string) (sp : SpinParameters) (w : World) :
  Periodicity sp = NoPeriodicity -> Entropy sp = NoEntropy ->
  totalBits sp = 0 /\
  spinMask sp = 0 /\
  (forall ticks entropy, spinSuffix sp ticks entropy = "0") /\
  (forall cv err w',
      SpinWithParameters inferVersion validate base (Some sp) w
        = Returned (Some cv, err) w' ->
      cvString cv = base ++ ".0") /\
  (forall v, inferVersion base = inl v -> validationError validate w base v = None ->
      SpinWithParameters inferVersion validate base (Some sp) w
        = Returned (Some (newCorrelationVector (base ++ ".0") 0 v), None)
                   (afterSpin w 0)).
Proof.
  intros HP HE.
  assert (Ht : totalBits sp = 0).
  { unfold totalBits, counterBits. rewrite HP, HE. reflexivity. }
  assert (Hm : spinMask sp = 0).
  { unfold spinMask, maskOps. rewrite Ht. reflexivity. }
  assert (Hs : forall ticks entropy, spinSuffix sp ticks entropy = "0").
  { intros ticks entropy. unfold spinSuffix, formatSpin, maskedValue.
    rewrite Hm, Z.land_0_r, Ht. reflexivity. }
  assert (Hspun : forall v : Version,
             spun w base sp v = newCorrelationVector (base ++ ".0") 0 v).
  { intros v. unfold spun. rewrite Hs. reflexivity. }
  split; [exact Ht|]. split; [exact Hm|]. split; [exact Hs|]. split.
  - intros cv err w' R.
    destruct (run_returns_vector _ _ _ _ _ _ _ _ R)
      as (v & sp' & _ & _ & P & _ & C & _ & _).
    inversion P; subst sp'. rewrite C, Hspun. reflexivity.
  - intros v I G.
    rewrite (run_spin inferVersion validate base sp w v I G)
      by (rewrite HE; vm_compute; split; discriminate).
    rewrite Hspun, HE. reflexivity.
Qed.

Lemma C10_no_bits_gives_zero_witness :
  let sp := mkSpinParameters FineInterval NoPeriodicity NoEntropy in
  spinSuffix sp 179340480000000000 [xff; x07] = "0" /\
  Doubles.spin "abc.1" (Some sp)
               (Doubles.world true 1793404800000000000 [xff; x07])
  = Returned (Some (newCorrelationVector "abc.1.0" 0 Doubles.V1), None)
             (afterSpin (Doubles.world true 1793404800000000000 [xff; x07]) 0).
Proof.
  cbv zeta.
  pose proof (C10_no_bits_gives_zero
                Doubles.inferVersion Doubles.validate "abc.1"
                (mkSpinParameters FineInterval NoPeriodicity NoEntropy)
                (Doubles.world true 1793404800000000000 [xff; x07])
                eq_refl eq_refl) as (_ & _ & Hs & _ & Hr).
  split; [apply Hs|].
  exact (Hr Doubles.V1 eq_refl eq_refl).
Defined.

(* ===================================================================== *)
(** ** The layout of the packed value *)
(* ===================================================================== *)

Module LayoutFacts.
Import GoInt GoIntFacts Strconv StrconvFacts SpinFacts.

Lemma bytesBE_range (l : list byte) :
  0 <= bytesBE l < 256 ^ Z.of_nat (List.length l).
Proof.
  induction l as [|b l IH]; [cbn; lia|].
  cbn [bytesBE List.length]. rewrite Nat2Z.inj_succ, Z.pow_succ_r by lia.
  pose proof (byteZ_range b) as Hb. change (2 ^ 8) with 256 in Hb.
  assert (0 < 256 ^ Z.of_nat (List.length l)) by (apply Z.pow_pos_nonneg; lia).
  nia.
Qed.

(** Bytes of equal number spell the same number only if they are equal. *)
Lemma bytesBE_inj (l1 l2 : list byte) :
  List.length l1 = List.length l2 -> bytesBE l1 = bytesBE l2 -> l1 = l2.
Proof.
  revert l2. induction l1 as [|a l1 IH]; intros [|b l2] HL HE;
    try discriminate; [reflexivity|].
  cbn [List.length] in HL. injection HL as HL.
  cbn [bytesBE] in HE. rewrite HL in HE.
  pose proof (bytesBE_range l1) as R1. pose proof (bytesBE_range l2) as R2.
  rewrite HL in R1.
  pose proof (byteZ_range a) as Ha. pose proof (byteZ_range b) as Hb.
  assert (Hab : byteZ a = byteZ b) by nia.
  assert (a = b).
  { unfold byteZ in Hab. apply N2Z.inj in Hab.
    pose proof (Byte.of_to_N a) as Ea. rewrite Hab, Byte.of_to_N in Ea.
    now injection Ea. }
  subst b. f_equal. apply IH; [exact HL|]. lia.
Qed.

(** A shift by 8 leaves the low byte free, so the [|] of line 100 adds. *)
Lemma pack_step (v : Z) (b : byte) :
  Z.lor (shl64 v 8) (byteZ b) = (v * 256 + byteZ b) mod 2 ^ 64.
Proof.
  pose proof (byteZ_range b) as Hb.
  assert (Hs : shl64 v 8 = (v mod 2 ^ 56) * 2 ^ 8).
  { unfold shl64, uint64. rewrite Z.shiftl_mul_pow2 by lia.
    change (2 ^ 64) with (2 ^ 56 * 2 ^ 8).
    apply Z.mul_mod_distr_r; lia. }
  assert (Hl : Z.land (shl64 v 8) (byteZ b) = 0).
  { rewrite Hs, <- Z.shiftl_mul_pow2 by lia.
    rewrite <- (Z.mod_small (byteZ b) (2 ^ 8)) by lia.
    apply Z.bits_inj'. intros n Hn.
    rewrite Z.land_spec, Z.bits_0.
    destruct (Z.lt_ge_cases n 8).
    - rewrite Z.shiftl_spec_low by lia. reflexivity.
    - rewrite Z.mod_pow2_bits_high by lia. apply andb_false_r. }
  rewrite <- Z.lxor_lor, <- Z.add_nocarry_lxor by exact Hl.
  rewrite Hs.
  pose proof (Z.mod_pos_bound v (2 ^ 56) ltac:(lia)) as Hm.
  replace (v * 256 + byteZ b)
    with ((v mod 2 ^ 56 * 2 ^ 8 + byteZ b) + (v / 2 ^ 56) * 2 ^ 64).
  - rewrite Z.mod_add by lia. symmetry. apply Z.mod_small.
    change (2 ^ 64) with (2 ^ 56 * 2 ^ 8). change (2 ^ 8) with 256 in *. nia.
  - pose proof (Z.div_mod v (2 ^ 56) ltac:(lia)) as Hd.
    change (2 ^ 64) with (2 ^ 56 * 256). change (2 ^ 8) with 256. lia.
Qed.

(** The loop of lines 99-101 appends the bytes to the digits of the value,
    in base 256, modulo [2^64]. *)
Lemma pack_loop (l : list byte) :
  forall v, 0 <= v < 2 ^ 64 ->
    fold_left (fun value b => Z.lor (shl64 value 8) (byteZ b)) l v
    = (v * 256 ^ Z.of_nat (List.length l) + bytesBE l) mod 2 ^ 64.
Proof.
  induction l as [|b l IH]; intros v Hv.
  - cbn. rewrite Z.mul_1_r, Z.add_0_r. symmetry. now apply Z.mod_small.
  - cbn [fold_left].
    rewrite IH by (rewrite pack_step; apply Z.mod_pos_bound; lia).
    rewrite pack_step.
    cbn [bytesBE List.length]. rewrite Nat2Z.inj_succ, Z.pow_succ_r by lia.
    rewrite Z.add_mod by lia.
    rewrite Z.mul_mod_idemp_l by lia.
    rewrite <- Z.add_mod by lia.
    f_equal. lia.
Qed.

Lemma packValue_layout (sp : SpinParameters) ticks entropy :
  packValue sp ticks entropy =
  (sar64 ticks (tickBitsToDrop sp) * 256 ^ Z.of_nat (List.length entropy)
   + bytesBE entropy) mod 2 ^ 64.
Proof.
  unfold packValue. rewrite pack_loop by apply uint64_range.
  unfold uint64.
  rewrite Z.add_mod by lia. rewrite Z.mul_mod_idemp_l by lia.
  rewrite <- Z.add_mod by lia. reflexivity.
Qed.

Lemma pow256 (n : Z) : 0 <= n -> 256 ^ n = 2 ^ (8 * n).
Proof. intros H. change 256 with (2 ^ 8). now rewrite <- Z.pow_mul_r by lia. Qed.

(** Splitting a number at bit [k]: the part above taken modulo [2^c]. *)
Lemma mod_split (s e c k : Z) :
  0 <= c -> 0 <= k -> 0 <= e < 2 ^ k ->
  (s * 2 ^ k + e) mod 2 ^ (c + k) = (s mod 2 ^ c) * 2 ^ k + e.
Proof.
  intros Hc Hk He.
  assert (0 < 2 ^ c) by (apply Z.pow_pos_nonneg; lia).
  assert (0 < 2 ^ k) by (apply Z.pow_pos_nonneg; lia).
  pose proof (Z.div_mod s (2 ^ c) ltac:(lia)) as Hd.
  pose proof (Z.mod_pos_bound s (2 ^ c) ltac:(lia)) as Hm.
  rewrite Z.pow_add_r by lia.
  replace (s * 2 ^ k + e)
    with ((s mod 2 ^ c * 2 ^ k + e) + (s / 2 ^ c) * (2 ^ c * 2 ^ k)) by nia.
  rewrite Z.mod_add by nia. apply Z.mod_small. nia.
Qed.

(** For valid parameters the masked value is the packed one modulo
    [2^totalBits]. *)
Lemma maskedValue_mod (sp : SpinParameters) ticks entropy :
  totalBits sp <= 64 ->
  maskedValue sp ticks entropy = packValue sp ticks entropy mod 2 ^ totalBits sp.
Proof.
  intros H. destruct (Z.eq_dec (totalBits sp) 64) as [E|E].
  - rewrite maskedValue_from_64 by lia. rewrite E.
    symmetry. apply Z.mod_small. apply packValue_range.
  - apply maskedValue_below_64. lia.
Qed.

Lemma layout (sp : SpinParameters) ticks entropy :
  validEntropy sp ->
  List.length entropy = Z.to_nat (Entropy sp) ->
  maskedValue sp ticks entropy =
  counterOf sp ticks * 2 ^ (8 * Entropy sp) + bytesBE entropy.
Proof.
  intros HV HL.
  pose proof (totalBits_valid_le_64 sp HV) as Hle.
  pose proof (counterBits_cases sp) as Hc.
  pose proof (bytesBE_range entropy) as HE.
  unfold validEntropy in HV.
  rewrite maskedValue_mod by lia.
  rewrite packValue_layout, HL, Z2Nat.id, pow256 in * by lia.
  rewrite Z.mod_mod_divide.
  - rewrite (totalBits_valid sp) by exact HV.
    unfold counterOf. apply mod_split; lia.
  - exists (2 ^ (64 - totalBits sp)).
    rewrite <- Z.pow_add_r by lia. f_equal. lia.
Qed.

Lemma counterOf_range (sp : SpinParameters) ticks :
  0 <= counterOf sp ticks < 2 ^ counterBits sp.
Proof.
  unfold counterOf. apply Z.mod_pos_bound.
  pose proof (counterBits_cases sp). apply Z.pow_pos_nonneg; lia.
Qed.

(** Taking the value apart by shift and remainder. *)
Lemma decode (sp : SpinParameters) (ticks : Z) (entropy : list byte) :
  validEntropy sp ->
  List.length entropy = Z.to_nat (Entropy sp) ->
  shr64 (maskedValue sp ticks entropy) (8 * Entropy sp) = counterOf sp ticks /\
  maskedValue sp ticks entropy mod 2 ^ (8 * Entropy sp) = bytesBE entropy.
Proof.
  intros HV HL. rewrite (layout sp ticks entropy HV HL).
  pose proof (bytesBE_range entropy) as HE.
  unfold validEntropy in HV.
  rewrite HL, Z2Nat.id, pow256 in HE by lia.
  assert (0 < 2 ^ (8 * Entropy sp)) by (apply Z.pow_pos_nonneg; lia).
  unfold shr64. rewrite Z.shiftr_div_pow2 by lia. split.
  - rewrite Z.add_comm, Z.div_add by lia.
    rewrite Z.div_small by lia. lia.
  - rewrite Z.add_comm, Z.mod_add by lia. apply Z.mod_small. lia.
Qed.

End LayoutFacts.

(* ===================================================================== *)
(** ** Further properties of the Spin value *)
(* ===================================================================== *)

Import LayoutFacts.

(** X1. For valid parameters, with as many entropy bytes as [Entropy] says,
    the masked value of lines 98-111 is the counter (the tick count without
    its dropped bits, modulo [2^counterBits]) in the high bits and the
    entropy bytes, first byte most significant, in the low [8*Entropy] bits.
    This holds for every tick count, negative ones too. *)
Theorem X1_value_layout (sp : SpinParameters) (ticks : Z) (entropy : list byte) :
  validEntropy sp ->
  List.length entropy = Z.to_nat (Entropy sp) ->
  maskedValue sp ticks entropy =
  counterOf sp ticks * 2 ^ (8 * Entropy sp) + bytesBE entropy.
Proof. apply layout. Qed.

Lemma X1_value_layout_witness :
  maskedValue (mkSpinParameters FineInterval MediumPeriodicity ThreeEntropy)
              (-1) [x0a; x0b; x0c]
  = (2 ^ 24 - 1) * 2 ^ 24 + (10 * 65536 + 11 * 256 + 12).
Proof.
  rewrite (X1_value_layout
             (mkSpinParameters FineInterval MediumPeriodicity ThreeEntropy)
             (-1) [x0a; x0b; x0c]);
    [reflexivity|unfold validEntropy, ThreeEntropy; cbn; lia|reflexivity].
Defined.

(** X2. The value can be taken apart again: shifting it right by
    [8*Entropy] gives the counter back, and its remainder modulo
    [2^(8*Entropy)] the number the entropy bytes spell. *)
Theorem X2_value_decodes (sp : SpinParameters) (ticks : Z) (entropy : list byte) :
  validEntropy sp ->
  List.length entropy = Z.to_nat (Entropy sp) ->
  shr64 (maskedValue sp ticks entropy) (8 * Entropy sp) = counterOf sp ticks /\
  maskedValue sp ticks entropy mod 2 ^ (8 * Entropy sp) = bytesBE entropy.
Proof. apply decode. Qed.

Lemma X2_value_decodes_witness :
  let sp := defaultParameters in
  let value := maskedValue sp 83886080 [x01; x02] in
  shr64 value 16 = 5 /\ value mod 2 ^ 16 = 258.
Proof.
  cbv zeta.
  exact (X2_value_decodes defaultParameters 83886080 [x01; x02]
           ltac:(unfold validEntropy; cbn; unfold TwoEntropy; lia) eq_refl).
Defined.

(** X3. For valid parameters two Spin values are equal only if their
    counters are equal and their entropy bytes are the same: at one counter
    value, two calls collide only when they draw the same bytes. *)
Theorem X3_value_injective (sp : SpinParameters) (t1 t2 : Z) (e1 e2 : list byte) :
  validEntropy sp ->
  List.length e1 = Z.to_nat (Entropy sp) ->
  List.length e2 = Z.to_nat (Entropy sp) ->
  maskedValue sp t1 e1 = maskedValue sp t2 e2 ->
  counterOf sp t1 = counterOf sp t2 /\ e1 = e2.
Proof.
  intros HV H1 H2 HE.
  destruct (decode sp t1 e1 HV H1) as [C1 B1].
  destruct (decode sp t2 e2 HV H2) as [C2 B2].
  rewrite HE in C1, B1. split; [congruence|].
  apply bytesBE_inj; congruence.
Qed.

Lemma X3_value_injective_witness :
  counterOf defaultParameters 83886080 = counterOf defaultParameters 83886085 /\
  [x01; x02] = [x01; x02].
Proof.
  exact (X3_value_injective defaultParameters 83886080 83886085
           [x01; x02] [x01; x02]
           ltac:(unfold validEntropy; cbn; unfold TwoEntropy; lia)
           eq_refl eq_refl eq_refl).
Defined.

(** X4. For valid parameters the counter dominates the entropy: a value with
    a smaller counter is smaller, whatever the entropy bytes of the two. *)
Theorem X4_counter_orders_values (sp : SpinParameters) (t1 t2 : Z)
        (e1 e2 : list byte) :
  validEntropy sp ->
  List.length e1 = Z.to_nat (Entropy sp) ->
  List.length e2 = Z.to_nat (Entropy sp) ->
  counterOf sp t1 < counterOf sp t2 ->
  maskedValue sp t1 e1 < maskedValue sp t2 e2.
Proof.
  intros HV H1 H2 HC.
  rewrite (layout sp t1 e1 HV H1), (layout sp t2 e2 HV H2).
  pose proof (bytesBE_range e1) as R1. pose proof (bytesBE_range e2) as R2.
  unfold validEntropy in HV.
  rewrite H1, Z2Nat.id, pow256 in R1 by lia.
  rewrite H2, Z2Nat.id, pow256 in R2 by lia.
  nia.
Qed.

Lemma X4_counter_orders_values_witness :
  maskedValue defaultParameters 83886080 [xff; xff]
  < maskedValue defaultParameters (83886080 + 2 ^ 24) [x00; x00].
Proof.
  apply X4_counter_orders_values;
    [unfold validEntropy; cbn; unfold TwoEntropy; lia
    |reflexivity|reflexivity|vm_compute; reflexivity].
Defined.

(** X5. The counter advances by one, modulo [2^counterBits], every
    [2^tickBitsToDrop] ticks, and so for valid parameters the Spin value
    repeats after [2^(tickBitsToDrop + counterBits)] ticks: the two tick
    counts give the same value for the same entropy bytes. *)
Theorem X5_counter_period (sp : SpinParameters) (ticks : Z) (entropy : list byte) :
  validEntropy sp ->
  List.length entropy = Z.to_nat (Entropy sp) ->
  counterOf sp (ticks + 2 ^ tickBitsToDrop sp)
    = (counterOf sp ticks + 1) mod 2 ^ counterBits sp /\
  maskedValue sp (ticks + 2 ^ (tickBitsToDrop sp + counterBits sp)) entropy
    = maskedValue sp ticks entropy.
Proof.
  intros HV HL.
  assert (Hd : 0 <= tickBitsToDrop sp).
  { unfold tickBitsToDrop.
    destruct (Interval sp =? CoarseInterval); [lia|].
    destruct (Interval sp =? FineInterval); lia. }
  pose proof (counterBits_cases sp) as Hc.
  assert (0 < 2 ^ tickBitsToDrop sp) by (apply Z.pow_pos_nonneg; lia).
  assert (0 < 2 ^ counterBits sp) by (apply Z.pow_pos_nonneg; lia).
  split.
  - unfold counterOf, sar64. rewrite !Z.shiftr_div_pow2 by lia.
    replace (ticks + 2 ^ tickBitsToDrop sp)
      with (ticks + 1 * 2 ^ tickBitsToDrop sp) by lia.
    rewrite Z.div_add by lia.
    rewrite Z.add_mod_idemp_l by lia. reflexivity.
  - rewrite !(layout sp _ entropy HV HL). f_equal. f_equal.
    unfold counterOf, sar64. rewrite !Z.shiftr_div_pow2 by lia.
    rewrite Z.pow_add_r by lia.
    rewrite (Z.mul_comm (2 ^ tickBitsToDrop sp)).
    rewrite Z.div_add by lia.
    rewrite <- (Z.mul_1_l (2 ^ counterBits sp)) at 1.
    apply Z.mod_add. lia.
Qed.

Lemma X5_counter_period_witness :
  maskedValue defaultParameters (179340480000000000 + 2 ^ 40) [x01; x02]
  = maskedValue defaultParameters 179340480000000000 [x01; x02].
Proof.
  exact (proj2 (X5_counter_period defaultParameters 179340480000000000
                  [x01; x02]
                  ltac:(unfold validEntropy; cbn; unfold TwoEntropy; lia)
                  eq_refl)).
Defined.

(** The suffix depends on the parameters through [tickBitsToDrop],
    [counterBits] and [Entropy] only. *)
Lemma spinSuffix_congr (sp sp' : SpinParameters) ticks entropy :
  tickBitsToDrop sp = tickBitsToDrop sp' ->
  counterBits sp = counterBits sp' ->
  Entropy sp = Entropy sp' ->
  spinSuffix sp ticks entropy = spinSuffix sp' ticks entropy.
Proof.
  intros HD HC HE.
  assert (HT : totalBits sp = totalBits sp')
    by (unfold totalBits; rewrite HC, HE; reflexivity).
  unfold spinSuffix, formatSpin, maskedValue, packValue, spinMask, maskOps.
  rewrite HD, HT. reflexivity.
Qed.

Lemma run_congr {Version Error : Type}
      (inferVersion : string -> Version + Error)
      (validate : string -> Version -> option Error)
      (base : string) (sp sp' : SpinParameters) (w : World) :
  tickBitsToDrop sp = tickBitsToDrop sp' ->
  counterBits sp = counterBits sp' ->
  Entropy sp = Entropy sp' ->
  SpinWithParameters inferVersion validate base (Some sp) w =
  SpinWithParameters inferVersion validate base (Some sp') w.
Proof.
  intros HD HC HE. unfold SpinWithParameters.
  destruct (inferVersion base) as [v|e]; [|reflexivity].
  unfold bind, readValidateFlag.
  destruct (if ValidateCorrelationVectorDuringCreation w
            then validate base v else None); [reflexivity|].
  unfold deref, ret, makeBytes. rewrite <- HE.
  destruct ((Entropy sp <? 0) || (maxAlloc <? Entropy sp)); [reflexivity|].
  unfold randRead, timeNowUnixNano. cbv beta iota zeta delta [ret].
  rewrite (spinSuffix_congr sp sp' _ _ HD HC HE). reflexivity.
Qed.

(** X6. Values outside the named constants do not fail. A call with an
    [Interval] other than FineInterval behaves exactly as with
    CoarseInterval, and a call with a [Periodicity] other than Short, Medium
    and Long exactly as with NoPeriodicity. *)
Theorem X6_unnamed_values_fall_back {Version Error : Type}
        (inferVersion : string -> Version + Error)
        (validate : string -> Version -> option Error)
        (base : string) (sp : SpinParameters) (w : World) :
  (Interval sp <> FineInterval ->
   SpinWithParameters inferVersion validate base (Some sp) w =
   SpinWithParameters inferVersion validate base
     (Some (mkSpinParameters CoarseInterval (Periodicity sp) (Entropy sp))) w) /\
  (Periodicity sp <> ShortPeriodicity ->
   Periodicity sp <> MediumPeriodicity ->
   Periodicity sp <> LongPeriodicity ->
   SpinWithParameters inferVersion validate base (Some sp) w =
   SpinWithParameters inferVersion validate base
     (Some (mkSpinParameters (Interval sp) NoPeriodicity (Entropy sp))) w).
Proof.
  split.
  - intros HI. apply run_congr; [|reflexivity|reflexivity].
    unfold tickBitsToDrop. cbn [Interval].
    destruct (Interval sp =? CoarseInterval); [reflexivity|].
    destruct (Z.eqb_spec (Interval sp) FineInterval); [contradiction|reflexivity].
  - intros HS HM HL. apply run_congr; [reflexivity| |reflexivity].
    unfold counterBits. cbn [Periodicity].
    destruct (Z.eqb_spec (Periodicity sp) ShortPeriodicity); [contradiction|].
    destruct (Z.eqb_spec (Periodicity sp) MediumPeriodicity); [contradiction|].
    destruct (Z.eqb_spec (Periodicity sp) LongPeriodicity); [contradiction|].
    reflexivity.
Qed.

Lemma X6_unnamed_values_fall_back_witness :
  Doubles.spin "abc.1" (Some (mkSpinParameters 7 ShortPeriodicity TwoEntropy))
               (Doubles.world true 8388608000 [x01; x02])
  = Doubles.spin "abc.1" (Some defaultParameters)
                 (Doubles.world true 8388608000 [x01; x02]) /\
  Doubles.spin "abc.1" (Some (mkSpinParameters FineInterval (-1) TwoEntropy))
               (Doubles.world true 8388608000 [x01; x02])
  = Doubles.spin "abc.1" (Some (mkSpinParameters FineInterval NoPeriodicity TwoEntropy))
                 (Doubles.world true 8388608000 [x01; x02]).
Proof.
  split.
  - exact (proj1 (X6_unnamed_values_fall_back
                    Doubles.inferVersion Doubles.validate "abc.1"
                    (mkSpinParameters 7 ShortPeriodicity TwoEntropy)
                    (Doubles.world true 8388608000 [x01; x02]))
                 ltac:(discriminate)).
  - exact (proj2 (X6_unnamed_values_fall_back
                    Doubles.inferVersion Doubles.validate "abc.1"
                    (mkSpinParameters FineInterval (-1) TwoEntropy)
                    (Doubles.world true 8388608000 [x01; x02]))
                 ltac:(discriminate) ltac:(discriminate) ltac:(discriminate)).
Defined.

Lemma entropyOf_length (w : World) (n : nat) : List.length (entropyOf w n) = n.
Proof. unfold entropyOf. now rewrite length_map, length_seq. Qed.

(** X7. [Spin], on a base CV that passes the checks, returns the base CV
    followed by ['.'] and one canonical decimal numeral below [2^32]: the low
    16 bits of the tick count shifted right by 24, then the two bytes drawn
    from the random source. *)
Theorem X7_Spin_default_value {Version Error : Type}
        (inferVersion : string -> Version + Error)
        (validate : string -> Version -> option Error)
        (base : string) (w : World) (v : Version) :
  inferVersion base = inl v ->
  validationError validate w base v = None ->
  let value := (sar64 (ticksOf w) 24 mod 2 ^ 16) * 2 ^ 16
               + bytesBE (entropyOf w 2) in
  Spin inferVersion validate base w
    = Returned (Some (newCorrelationVector (base ++ "." ++ Itoa value) 0 v), None)
               (afterSpin w 2) /\
  0 <= value < 2 ^ 32 /\
  canonicalDecimal (Itoa value) = true /\
  numeralValue 0 (Itoa value) = value.
Proof.
  intros I G value.
  assert (HV : validEntropy defaultParameters)
    by (unfold validEntropy; cbn; unfold TwoEntropy; lia).
  assert (HM : maskedValue defaultParameters (ticksOf w) (entropyOf w 2) = value).
  { rewrite (layout defaultParameters _ _ HV (entropyOf_length w 2)).
    reflexivity. }
  assert (HR : 0 <= value < 2 ^ 32).
  { rewrite <- HM.
    pose proof (maskedValue_range defaultParameters (ticksOf w) (entropyOf w 2)) as R.
    exact R. }
  assert (2 ^ 32 < 2 ^ 63) by reflexivity.
  split; [|split; [exact HR|apply Itoa_nonneg; lia]].
  unfold Spin.
  rewrite (run_spin inferVersion validate base defaultParameters w v I G)
    by (vm_compute; split; discriminate).
  unfold spun, spinSuffix.
  change (Z.to_nat (Entropy defaultParameters)) with 2%nat.
  rewrite HM, formatSpin_one by (vm_compute; discriminate).
  rewrite int_small by lia. reflexivity.
Qed.

Lemma X7_Spin_default_value_witness :
  Spin Doubles.inferVersion Doubles.validate "abc.1"
       (Doubles.world true 1793404800000000000 [xab; xcd])
  = Returned (Some (newCorrelationVector "abc.1.3958418381" 0 Doubles.V1), None)
             (afterSpin (Doubles.world true 1793404800000000000 [xab; xcd]) 2).
Proof.
  exact (proj1 (X7_Spin_default_value
                  Doubles.inferVersion Doubles.validate "abc.1"
                  (Doubles.world true 1793404800000000000 [xab; xcd])
                  Doubles.V1 eq_refl eq_refl)).
Defined.

(** X8. When fewer than 64 bits are kept, every field of the suffix is a
    canonical decimal numeral and reads back as a number: the single field as
    the masked value, and of two fields the first as the value shifted right
    by 32 and the second as the whole value. *)
Theorem X8_suffix_reads_back (sp : SpinParameters) (ticks : Z) (entropy : list byte) :
  totalBits sp < 64 ->
  let value := maskedValue sp ticks entropy in
  Forall (fun f => canonicalDecimal f = true) (fields (spinSuffix sp ticks entropy)) /\
  map (numeralValue 0) (fields (spinSuffix sp ticks entropy)) =
  if 32 <? totalBits sp then [shr64 value 32; value] else [value].
Proof.
  intros H value.
  pose proof (maskedValue_range sp ticks entropy) as Hr.
  pose proof (totalBits_range sp) as Ht.
  rewrite Z.min_l in Hr by lia. fold value in Hr.
  assert (2 ^ totalBits sp <= 2 ^ 63) by (apply Z.pow_le_mono_r; lia).
  assert (H63 : 0 <= value < 2 ^ 63) by lia.
  assert (H64 : 0 <= value < 2 ^ 64)
    by (assert (2 ^ 63 < 2 ^ 64) by reflexivity; lia).
  pose proof (shr64_32_range value H64) as Hhi.
  assert (2 ^ 32 < 2 ^ 63) by reflexivity.
  unfold spinSuffix. fold value. split; [now apply formatSpin_canonical|].
  rewrite fields_formatSpin.
  destruct (32 <? totalBits sp); cbn [map];
    rewrite ?int_small by lia;
    rewrite ?(proj2 (Itoa_nonneg _ H63));
    rewrite ?(proj2 (Itoa_nonneg (shr64 value 32) ltac:(lia)));
    reflexivity.
Qed.

Lemma X8_suffix_reads_back_witness :
  let sp := mkSpinParameters CoarseInterval MediumPeriodicity TwoEntropy in
  map (numeralValue 0) (fields (spinSuffix sp 17934048000000000 [x00; x05]))
  = [182; 785642422277].
Proof.
  cbv zeta.
  rewrite (proj2 (X8_suffix_reads_back
                    (mkSpinParameters CoarseInterval MediumPeriodicity TwoEntropy)
                    17934048000000000 [x00; x05]
                    ltac:(vm_compute; reflexivity))).
  vm_compute. reflexivity.
Defined.

Lemma length_append (a b : string) :
  String.length (a ++ b) = (String.length a + String.length b)%nat.
Proof. induction a as [|c a IH]; cbn; [reflexivity|now rewrite IH]. Qed.

(** The digit loop emits at most [k] digits for a number below [10^k]. *)
Lemma length_formatBits (rounds : nat) :
  forall u acc k, (1 <= k)%nat -> 0 <= u < 10 ^ Z.of_nat k ->
    (String.length (formatBits rounds u acc) <= k + String.length acc)%nat.
Proof.
  induction rounds as [|r IH]; intros u acc k Hk Hu; cbn [formatBits]; [lia|].
  destruct (Z.ltb_spec u 10) as [Hlt|Hge]; [cbn [String.length]; lia|].
  destruct k as [|[|k]]; [lia|cbn in Hu; lia|].
  specialize (IH (u / 10) (String (digitChar (u mod 10)) acc) (S k)).
  cbn [String.length] in IH.
  rewrite (Nat2Z.inj_succ (S k)), Z.pow_succ_r in Hu by lia.
  assert (0 <= u / 10 < 10 ^ Z.of_nat (S k)).
  { split; [apply Z.div_pos; lia|apply Z.div_lt_upper_bound; lia]. }
  specialize (IH ltac:(lia) ltac:(assumption)). lia.
Qed.

Lemma length_Itoa (i : Z) (k : nat) :
  (1 <= k)%nat -> - 10 ^ Z.of_nat k < i < 10 ^ Z.of_nat k ->
  (String.length (Itoa i) <= (if (i <? 0)%Z then S k else k))%nat.
Proof.
  intros Hk Hi. unfold Itoa, formatUint.
  destruct (Z.ltb_spec i 0).
  - cbn [String.length].
    pose proof (length_formatBits 20 (- i) "" k Hk ltac:(lia)) as L.
    cbn [String.length] in L. lia.
  - pose proof (length_formatBits 20 i "" k Hk ltac:(lia)) as L.
    cbn [String.length] in L. lia.
Qed.

Lemma int_range (x : Z) : - 2 ^ 63 <= int x < 2 ^ 63.
Proof.
  unfold int. pose proof (uint64_range x) as H.
  assert (2 ^ 64 = 2 * 2 ^ 63) by reflexivity.
  destruct (Z.ltb_spec (uint64 x) (2 ^ 63)); lia.
Qed.

(** X9. What a call appends is short, for every parameter value, tick count
    and entropy: the suffix has at most 31 characters, and at most 10 when
    [totalBits <= 32], as with the default parameters. *)
Theorem X9_suffix_length (sp : SpinParameters) (ticks : Z) (entropy : list byte) :
  (String.length (spinSuffix sp ticks entropy) <= 31)%nat /\
  (totalBits sp <= 32 ->
   (String.length (spinSuffix sp ticks entropy) <= 10)%nat).
Proof.
  pose proof (maskedValue_uint64 sp ticks entropy) as H64.
  pose proof (maskedValue_range sp ticks entropy) as Hr.
  pose proof (totalBits_range sp) as Ht.
  set (value := maskedValue sp ticks entropy) in *.
  pose proof (int_range value) as Hi.
  assert (P63 : 2 ^ 63 < 10 ^ Z.of_nat 19) by reflexivity.
  assert (P32 : 2 ^ 32 < 10 ^ Z.of_nat 10) by reflexivity.
  assert (Q32 : 2 ^ 32 < 2 ^ 63) by reflexivity.
  pose proof (length_Itoa (int value) 19 ltac:(lia) ltac:(lia)) as Llo.
  assert (Llo' : (String.length (Itoa (int value)) <= 20)%nat)
    by (destruct (int value <? 0); lia).
  unfold spinSuffix. fold value. split.
  - unfold formatSpin. destruct (32 <? totalBits sp); [|lia].
    pose proof (shr64_32_range value H64) as Hhi.
    pose proof (length_Itoa (int (shr64 value 32)) 10 ltac:(lia)
                  ltac:(rewrite int_small by lia; lia)) as Lhi.
    rewrite int_small in Lhi at 2 by lia.
    destruct (Z.ltb_spec (shr64 value 32) 0); [lia|].
    rewrite !length_append. cbn [String.length]. lia.
  - intros Hle. rewrite formatSpin_one by exact Hle.
    rewrite Z.min_l in Hr by lia.
    assert (2 ^ totalBits sp <= 2 ^ 32) by (apply Z.pow_le_mono_r; lia).
    rewrite int_small by lia.
    pose proof (length_Itoa value 10 ltac:(lia) ltac:(lia)) as L.
    destruct (Z.ltb_spec value 0); lia.
Qed.

Lemma X9_suffix_length_witness :
  (String.length (spinSuffix defaultParameters 17934048000000000 [xff; xff]) <= 10)%nat.
Proof.
  exact (proj2 (X9_suffix_length defaultParameters 17934048000000000 [xff; xff])
               ltac:(vm_compute; discriminate)).
Defined.

Lemma map_seq_shift {A} (g : nat -> A) (n m : nat) :
  map g (seq n m) = map (fun i => g (n + i)%nat) (seq 0 m).
Proof.
  revert n. induction m as [|m IH]; intros n; [reflexivity|].
  cbn [seq map]. rewrite Nat.add_0_r. f_equal.
  rewrite (IH (S n)), <- seq_shift, map_map.
  apply map_ext. intros i. f_equal. lia.
Qed.

(** X10. A call that returns a vector has drawn exactly [Entropy] bytes from
    the random source, then read the clock once, and nothing else: the flag,
    the clock and the source are as before, and the bytes a later read would
    get are the ones that follow the bytes this call used. *)
Theorem X10_effects_of_a_spin {Version Error : Type}
        (inferVersion : string -> Version + Error)
        (validate : string -> Version -> option Error)
        (base : string) (ptr : option SpinParameters) (w w' : World)
        (cv : CorrelationVector Version) (err : option Error) :
  SpinWithParameters inferVersion validate base ptr w = Returned (Some cv, err) w' ->
  exists sp,
    ptr = Some sp /\
    let n := Z.to_nat (Entropy sp) in
    events w' = (events w ++ [EvRandRead n; EvTimeNow])%list /\
    randDrawn w' = (randDrawn w + n)%nat /\
    ValidateCorrelationVectorDuringCreation w'
      = ValidateCorrelationVectorDuringCreation w /\
    unixNano w' = unixNano w /\
    (forall m, entropyOf w (n + m) = (entropyOf w n ++ entropyOf w' m)%list).
Proof.
  intros R.
  destruct (run_returns_vector _ _ _ _ _ _ _ _ R)
    as (v & sp & _ & _ & P & _ & _ & _ & W).
  exists sp. split; [exact P|]. subst w'. cbv zeta.
  unfold afterSpin, record. cbn [events randDrawn unixNano
                                 ValidateCorrelationVectorDuringCreation].
  split; [now rewrite <- app_assoc|]. repeat split.
  intros m. unfold entropyOf. cbn [randSource randDrawn].
  rewrite seq_app, map_app. f_equal.
  rewrite map_seq_shift. apply map_ext. intros i. f_equal. lia.
Qed.

Lemma X10_effects_of_a_spin_witness :
  exists sp,
    Some defaultParameters = Some sp /\
    let n := Z.to_nat (Entropy sp) in
    let w := Doubles.world true 8388608000 [x01; x02; x03] in
    events (afterSpin w 2) = (events w ++ [EvRandRead n; EvTimeNow])%list /\
    randDrawn (afterSpin w 2) = (randDrawn w + n)%nat /\
    ValidateCorrelationVectorDuringCreation (afterSpin w 2)
      = ValidateCorrelationVectorDuringCreation w /\
    unixNano (afterSpin w 2) = unixNano w /\
    (forall m, entropyOf w (n + m) = (entropyOf w n ++ entropyOf (afterSpin w 2) m)%list).
Proof.
  apply (X10_effects_of_a_spin
           Doubles.inferVersion Doubles.validate "abc.1"
           (Some defaultParameters)
           (Doubles.world true 8388608000 [x01; x02; x03])
           (afterSpin (Doubles.world true 8388608000 [x01; x02; x03]) 2)
           (newCorrelationVector "abc.1.327938" 0 Doubles.V1) None).
  vm_compute. reflexivity.
Defined.

(** X11. Out of range: with eight or more entropy bytes the loop of lines
    99-101 shifts the counter out of the 64 bits, and the mask keeps all of
    them: the value is made of the entropy bytes alone, whatever the tick
    count. *)
Theorem X11_eight_bytes_drop_the_counter (sp : SpinParameters) (ticks : Z)
        (entropy : list byte) :
  8 <= Entropy sp < 2 ^ 60 ->
  List.length entropy = Z.to_nat (Entropy sp) ->
  maskedValue sp ticks entropy = bytesBE entropy mod 2 ^ 64.
Proof.
  intros HE HL.
  pose proof (counterBits_cases sp) as Hc.
  assert (Ht : 64 <= totalBits sp).
  { unfold totalBits. rewrite (uint64_small (Entropy sp)) by lia.
    rewrite uint64_small; [lia|].
    assert (2 ^ 64 = 16 * 2 ^ 60) by reflexivity. lia. }
  rewrite maskedValue_from_64 by exact Ht.
  rewrite packValue_layout, HL, Z2Nat.id, pow256 by lia.
  replace (8 * Entropy sp) with (8 * Entropy sp - 64 + 64) by lia.
  rewrite Z.pow_add_r by lia.
  rewrite Z.mul_assoc, Z.add_comm. apply Z.mod_add. lia.
Qed.

Lemma X11_eight_bytes_drop_the_counter_witness :
  maskedValue (mkSpinParameters CoarseInterval LongPeriodicity 8)
              17934048000000000 [x00; x00; x00; x00; x00; x00; x01; x02]
  = 258.
Proof.
  rewrite (X11_eight_bytes_drop_the_counter
             (mkSpinParameters CoarseInterval LongPeriodicity 8)
             17934048000000000 [x00; x00; x00; x00; x00; x00; x01; x02]);
    [reflexivity|cbn; lia|reflexivity].
Defined.
